(** * The data-access state store of the HR record-keeping application

    A shallow embedding of [AppProvider] (the React context provider that
    fetches, joins and mutates the four record collections) together with a
    model of the remote Persistence Service it talks to.

    Asynchronous functions are embedded as terms of a small free monad
    [Prog]: [Await] marks every [await supabase...] suspension point, [Do]
    every synchronous effect ([setState], [console.error], [window.alert]),
    [Throw] every [throw].  Mutations are run with [exec]; the full reload,
    which waits on four reads with [Promise.all], is run by a scheduler that
    resumes the suspended reads in an arbitrary order.

    The [HRDatabase] page that uses the provider is embedded too: its
    search, its form handlers and the branches of what it renders. *)

From Stdlib Require Import List Ascii String Bool Arith Lia DecimalString.
Import ListNotations.
Local Open Scope string_scope.
Local Open Scope list_scope.

(** ** Data model *)

(** A field typed [string | null] that may also be left out of an object
    literal ([phone_number?: string | null]). *)
Inductive Optional : Type :=
| Undefined
| Null
| Str (s : string).

(** [v ?? null] *)
Definition nullish_or_null (v : Optional) : Optional :=
  match v with
  | Undefined => Null
  | Null => Null
  | Str s => Str s
  end.

(** [a === b] where [a] is a nullable column and [b] a string. *)
Definition strict_eq (a : option string) (b : string) : bool :=
  match a with
  | Some s => String.eqb s b
  | None => false
  end.

(** A row of table [hr_entries]. *)
Module HRRow.
Record t : Type := make {
  id : string;
  da_name : string;
  company_name : string;
  hr_name : string;
  hr_contact : string;
  created_at : string
}.
End HRRow.

(** A row of table [questions]; [hr_entry_id] is the nullable foreign key. *)
Module Question.
Record t : Type := make {
  id : string;
  text : string;
  topic : string;
  asked_by : string;
  hr_entry_id : option string;
  created_at : string
}.
End Question.

Module Answer.
Record t : Type := make {
  id : string;
  question_id : string;
  answer_text : string;
  answered_by : string;
  created_at : string
}.
End Answer.

Module Job.
Record t : Type := make {
  id : string;
  da_name : string;
  company_name : string;
  phone_number : Optional;
  job_link : string;
  file_name : Optional;
  created_at : string
}.
End Job.

(** An element of the [hrEntries] collection: [{ ...entry, questions }]. *)
Module HREntry.
Record t : Type := make {
  row : HRRow.t;
  questions : list Question.t
}.
Definition id (e : t) : string := HRRow.id (row e).
End HREntry.

(** The scalar part [hrData] of an HR-entry submission. *)
Module HRData.
Record t : Type := make {
  da_name : string;
  company_name : string;
  hr_name : string;
  hr_contact : string
}.
End HRData.

(** The argument of [addHREntry]:
    [Omit<HREntry, 'id' | 'created_at' | 'questions'> & { questions: string[] }]. *)
Module HRDraft.
Record t : Type := make {
  da_name : string;
  company_name : string;
  hr_name : string;
  hr_contact : string;
  questions : list string
}.
End HRDraft.

(** The argument of [addQuestion]: [Omit<Question, 'id' | 'created_at'>]. *)
Module QuestionDraft.
Record t : Type := make {
  text : string;
  topic : string;
  asked_by : string
}.
End QuestionDraft.

(** An object handed to [from('questions').insert]; [hr_entry_id = None]
    when the object has no such key. *)
Module QuestionInsert.
Record t : Type := make {
  text : string;
  topic : string;
  asked_by : string;
  hr_entry_id : option string
}.
End QuestionInsert.

(** The argument of [addAnswer]: [Omit<Answer, 'id' | 'created_at'>]. *)
Module AnswerDraft.
Record t : Type := make {
  question_id : string;
  answer_text : string;
  answered_by : string
}.
End AnswerDraft.

(** The argument of [addJob]: [Omit<Job, 'id' | 'created_at'>]. *)
Module JobDraft.
Record t : Type := make {
  da_name : string;
  company_name : string;
  phone_number : Optional;
  job_link : string;
  file_name : Optional
}.
End JobDraft.

(** The object literal [jobToInsert]. *)
Module JobInsert.
Record t : Type := make {
  da_name : string;
  company_name : string;
  job_link : string;
  phone_number : Optional;
  file_name : Optional
}.
End JobInsert.

(** ** The Persistence Service interface *)

(** The error object of a failed request; the provider only passes it on. *)
Record PostgrestError : Type := mkError {
  message : string;
  code : string
}.

(** The client's result object [{ data, error }]: either [data] with
    [error: null], or [error] with [data: null]. *)
Inductive PostgrestResponse (X : Type) : Type :=
| Success (data : X)
| Failure (error : PostgrestError).
Arguments Success {X} data.
Arguments Failure {X} error.

(** [.order('created_at', { ascending: false })] *)
Inductive Order : Type := CreatedAtDesc.

(** The query chains the provider builds, indexed by the type of [data]. *)
Inductive Request : Type -> Type :=
| SelectHREntries : Request (list HRRow.t)
    (* from('hr_entries').select('*') *)
| SelectQuestions (ord : option Order) : Request (list Question.t)
    (* from('questions').select('*')[.order(...)] *)
| SelectAnswers (ord : option Order) : Request (list Answer.t)
| SelectJobs (ord : option Order) : Request (list Job.t)
| InsertHREntrySingle (r : HRData.t) : Request HRRow.t
    (* from('hr_entries').insert([r]).select().single() *)
| InsertQuestions (rs : list QuestionInsert.t) : Request unit
    (* from('questions').insert(rs) *)
| InsertQuestionSingle (r : QuestionDraft.t) : Request Question.t
    (* from('questions').insert([r]).select().single() *)
| InsertAnswerSingle (r : AnswerDraft.t) : Request Answer.t
| InsertJobSingle (r : JobInsert.t) : Request Job.t.

(** A request with its result type packed, for the service's request log. *)
Inductive Sent : Type :=
| sent (X : Type) (r : Request X).
Arguments sent {X} r.

(** ** The Persistence Service *)

Definition decimal (n : nat) : string := NilZero.string_of_uint (Nat.to_uint n).

Section Sorting.
Context {A : Type}.
Variable key : A -> string.

(** Insert [x] into a list sorted by [key] descending, after equal keys. *)
Fixpoint insert_desc (x : A) (l : list A) : list A :=
  match l with
  | [] => [x]
  | y :: l' =>
      if String.ltb (key y) (key x) then x :: y :: l'
      else y :: insert_desc x l'
  end.

Definition sort_desc (l : list A) : list A :=
  fold_left (fun acc x => insert_desc x acc) l [].

Definition ordered (ord : option Order) (l : list A) : list A :=
  match ord with
  | Some CreatedAtDesc => sort_desc l
  | None => l
  end.
End Sorting.

(** Modelled from the spec: the Persistence Service, which is external to the
    repository (the [supabase] client and the database behind it).  Section 6
    gives its contract as [select(table, filter?, order?) -> rows | error] and
    [insert(table, rows) -> insertedRows | error], and section 3 says that
    [id] and [created_at] are assigned by the service.  The model keeps the
    four tables in insertion order, numbers new rows from [next_id], stamps
    them with [clock], and fails exactly the requests its [faults] plan names;
    a failed request changes no table.  [received] logs every request. *)
Module Service.
Record t : Type := make {
  hr_entries : list HRRow.t;
  questions : list Question.t;
  answers : list Answer.t;
  jobs : list Job.t;
  next_id : nat;
  clock : nat;
  faults : forall X : Type, Request X -> option PostgrestError;
  received : list Sent
}.

Definition fresh_id (n : nat) : string := "id-" ++ decimal n.

(** Timestamps are twelve digits wide, so that comparing them as strings
    compares them in time. *)
Definition timestamp (n : nat) : string :=
  let digits := decimal n in
  "t-" ++ concat "" (repeat "0" (12 - String.length digits)) ++ digits.

Definition column (v : Optional) : Optional :=
  match v with
  | Undefined => Null
  | _ => v
  end.

Definition new_hr (s : t) (r : HRData.t) : HRRow.t :=
  HRRow.make (fresh_id (next_id s)) (HRData.da_name r) (HRData.company_name r)
    (HRData.hr_name r) (HRData.hr_contact r) (timestamp (clock s)).

Definition new_question (stamp : string) (n : nat) (r : QuestionInsert.t)
  : Question.t :=
  Question.make (fresh_id n) (QuestionInsert.text r) (QuestionInsert.topic r)
    (QuestionInsert.asked_by r) (QuestionInsert.hr_entry_id r) stamp.

(** An object without the key [hr_entry_id] gets the column's default. *)
Definition defaulted (r : QuestionDraft.t) : QuestionInsert.t :=
  QuestionInsert.make (QuestionDraft.text r) (QuestionDraft.topic r)
    (QuestionDraft.asked_by r) None.

(** Rows of one batch get consecutive ids and one timestamp. *)
Fixpoint new_questions (stamp : string) (n : nat) (rs : list QuestionInsert.t)
  : list Question.t :=
  match rs with
  | [] => []
  | r :: rs' => new_question stamp n r :: new_questions stamp (S n) rs'
  end.

Definition new_answer (s : t) (r : AnswerDraft.t) : Answer.t :=
  Answer.make (fresh_id (next_id s)) (AnswerDraft.question_id r)
    (AnswerDraft.answer_text r) (AnswerDraft.answered_by r)
    (timestamp (clock s)).

Definition new_job (s : t) (r : JobInsert.t) : Job.t :=
  Job.make (fresh_id (next_id s)) (JobInsert.da_name r)
    (JobInsert.company_name r) (column (JobInsert.phone_number r))
    (JobInsert.job_link r) (column (JobInsert.file_name r))
    (timestamp (clock s)).

Definition log {X} (r : Request X) (s : t) : t :=
  make (hr_entries s) (questions s) (answers s) (jobs s) (next_id s)
    (clock s) (faults s) (received s ++ [sent r]).

Definition stored (s : t) (hr : list HRRow.t) (qs : list Question.t)
    (ans : list Answer.t) (js : list Job.t) (used : nat) : t :=
  make hr qs ans js (used + next_id s) (S (clock s)) (faults s) (received s).

(** What a request does when it is not failed. *)
Definition perform {X} (r : Request X) (s : t) : PostgrestResponse X * t :=
  match r in Request X return PostgrestResponse X * t with
  | SelectHREntries => (Success (hr_entries s), s)
  | SelectQuestions ord =>
      (Success (ordered Question.created_at ord (questions s)), s)
  | SelectAnswers ord =>
      (Success (ordered Answer.created_at ord (answers s)), s)
  | SelectJobs ord =>
      (Success (ordered Job.created_at ord (jobs s)), s)
  | InsertHREntrySingle r =>
      let row := new_hr s r in
      (Success row,
       stored s (hr_entries s ++ [row]) (questions s) (answers s) (jobs s) 1)
  | InsertQuestions rs =>
      let rows := new_questions (timestamp (clock s)) (next_id s) rs in
      (Success tt,
       stored s (hr_entries s) (questions s ++ rows) (answers s) (jobs s)
         (List.length rs))
  | InsertQuestionSingle r =>
      let row :=
        new_question (timestamp (clock s)) (next_id s) (defaulted r) in
      (Success row,
       stored s (hr_entries s) (questions s ++ [row]) (answers s) (jobs s) 1)
  | InsertAnswerSingle r =>
      let row := new_answer s r in
      (Success row,
       stored s (hr_entries s) (questions s) (answers s ++ [row]) (jobs s) 1)
  | InsertJobSingle r =>
      let row := new_job s r in
      (Success row,
       stored s (hr_entries s) (questions s) (answers s) (jobs s ++ [row]) 1)
  end.

Definition serve {X} (r : Request X) (s : t) : PostgrestResponse X * t :=
  let s' := log r s in
  match faults s X r with
  | Some e => (Failure e, s')
  | None => perform r s'
  end.
End Service.

(** ** The provider's state *)

(** The five [useState] cells of [AppProvider]. *)
Module Store.
Record t : Type := make {
  hrEntries : list HREntry.t;
  questions : list Question.t;
  answers : list Answer.t;
  jobs : list Job.t;
  loading : bool
}.

(** The initial values given to [useState]. *)
Definition initial : t := make [] [] [] [] true.
End Store.

(** The argument of a state setter: a new value, or a function of the
    previous one. *)
Inductive SetStateAction (S : Type) : Type :=
| Value (v : S)
| Updater (f : S -> S).
Arguments Value {S} v.
Arguments Updater {S} f.

Definition next_state {S : Type} (a : SetStateAction S) (prev : S) : S :=
  match a with
  | Value v => v
  | Updater f => f prev
  end.

(** The synchronous effects the provider performs. *)
Inductive Action : Type :=
| setHREntries (a : SetStateAction (list HREntry.t))
| setQuestions (a : SetStateAction (list Question.t))
| setAnswers (a : SetStateAction (list Answer.t))
| setJobs (a : SetStateAction (list Job.t))
| setLoading (a : SetStateAction bool)
| console_error (msg : string) (e : PostgrestError)
| window_alert (msg : string).

(** Everything an operation can observe or change: the provider's state, the
    remote service, the console, the alerts shown, and the promise rejections
    that reached no handler. *)
Record World : Type := mkWorld {
  store : Store.t;
  service : Service.t;
  console : list (string * PostgrestError);
  alerts : list string;
  unhandled : list PostgrestError
}.

Definition with_store (w : World) (s : Store.t) : World :=
  mkWorld s (service w) (console w) (alerts w) (unhandled w).

Definition with_service (w : World) (s : Service.t) : World :=
  mkWorld (store w) s (console w) (alerts w) (unhandled w).

Definition perform (a : Action) (w : World) : World :=
  let s := store w in
  match a with
  | setHREntries a =>
      with_store w (Store.make (next_state a (Store.hrEntries s))
        (Store.questions s) (Store.answers s) (Store.jobs s) (Store.loading s))
  | setQuestions a =>
      with_store w (Store.make (Store.hrEntries s)
        (next_state a (Store.questions s)) (Store.answers s) (Store.jobs s)
        (Store.loading s))
  | setAnswers a =>
      with_store w (Store.make (Store.hrEntries s) (Store.questions s)
        (next_state a (Store.answers s)) (Store.jobs s) (Store.loading s))
  | setJobs a =>
      with_store w (Store.make (Store.hrEntries s) (Store.questions s)
        (Store.answers s) (next_state a (Store.jobs s)) (Store.loading s))
  | setLoading a =>
      with_store w (Store.make (Store.hrEntries s) (Store.questions s)
        (Store.answers s) (Store.jobs s) (next_state a (Store.loading s)))
  | console_error msg e =>
      mkWorld (store w) (service w) (console w ++ [(msg, e)]) (alerts w)
        (unhandled w)
  | window_alert msg =>
      mkWorld (store w) (service w) (console w) (alerts w ++ [msg])
        (unhandled w)
  end.

(** ** Asynchronous functions *)

(** The body of an [async] function returning [Promise<void>]. *)
Inductive Prog : Type :=
| Return
| Throw (e : PostgrestError)
| Await {X : Type} (r : Request X) (k : PostgrestResponse X -> Prog)
| Do (a : Action) (k : Prog).

Declare Scope prog_scope.
Delimit Scope prog_scope with prog.
Bind Scope prog_scope with Prog.
Notation "x <- 'await' r ;; k" := (Await r (fun x => k%prog))
  (at level 61, r at next level, right associativity) : prog_scope.
Notation "a ;; k" := (Do a k%prog)
  (at level 61, right associativity) : prog_scope.
Local Open Scope prog_scope.

(** The state of the promise an [async] call returned. *)
Inductive Promise : Type :=
| Pending {X : Type} (r : Request X) (k : PostgrestResponse X -> Prog)
| Fulfilled
| Rejected (e : PostgrestError).

(** Run a body with every request answered as soon as it is awaited. *)
Fixpoint exec (p : Prog) (w : World) : Promise * World :=
  match p with
  | Return => (Fulfilled, w)
  | Throw e => (Rejected e, w)
  | Await r k =>
      let (resp, svc) := Service.serve r (service w) in
      exec (k resp) (with_service w svc)
  | Do a k => exec k (perform a w)
  end.

(** Run a body up to its next [await]. *)
Fixpoint start (p : Prog) (w : World) : Promise * World :=
  match p with
  | Return => (Fulfilled, w)
  | Throw e => (Rejected e, w)
  | Await r k => (Pending r k, w)
  | Do a k => start k (perform a w)
  end.

(** The awaited request is answered and the body runs on to its next
    [await]. *)
Definition resume (t : Promise) (w : World) : Promise * World :=
  match t with
  | Pending r k =>
      let (resp, svc) := Service.serve r (service w) in
      start (k resp) (with_service w svc)
  | _ => (t, w)
  end.

(** ** The reads of a full reload *)

(** Step 3 of [fetchHREntries]: attach to each entry the questions whose
    [hr_entry_id] is its id. *)
Definition hrEntriesWithQuestions (hrEntries : list HRRow.t)
    (questions : list Question.t) : list HREntry.t :=
  map (fun entry =>
         HREntry.make entry
           (filter (fun q => strict_eq (Question.hr_entry_id q) (HRRow.id entry))
              questions))
    hrEntries.

Definition fetchHREntries : Prog :=
  r1 <- await SelectHREntries;;
  match r1 with
  | Failure hrError => Throw hrError
  | Success hrEntries =>
      r2 <- await SelectQuestions None;;
      match r2 with
      | Failure qError => Throw qError
      | Success questions =>
          setHREntries (Value (hrEntriesWithQuestions hrEntries questions));;
          Return
      end
  end.

(** In the three guarded reads [data || []] is [data]: on success [data] is
    an array, and every array is truthy. *)
Definition fetchQuestions : Prog :=
  r <- await SelectQuestions (Some CreatedAtDesc);;
  match r with
  | Failure error =>
      console_error "Error fetching questions:" error;;
      Return
  | Success data =>
      setQuestions (Value data);;
      Return
  end.

Definition fetchAnswers : Prog :=
  r <- await SelectAnswers (Some CreatedAtDesc);;
  match r with
  | Failure error =>
      console_error "Error fetching answers:" error;;
      Return
  | Success data =>
      setAnswers (Value data);;
      Return
  end.

Definition fetchJobs : Prog :=
  r <- await SelectJobs (Some CreatedAtDesc);;
  match r with
  | Failure error =>
      console_error "Error fetching jobs:" error;;
      Return
  | Success data =>
      setJobs (Value data);;
      Return
  end.

(** ** The mutation operations *)

(** [const { questions, ...hrData } = entry] *)
Definition hrData (entry : HRDraft.t) : HRData.t :=
  HRData.make (HRDraft.da_name entry) (HRDraft.company_name entry)
    (HRDraft.hr_name entry) (HRDraft.hr_contact entry).

Definition questionRows (questions : list string) (hrEntry : HRRow.t)
  : list QuestionInsert.t :=
  map (fun q => QuestionInsert.make q "" "" (Some (HRRow.id hrEntry)))
    questions.

Definition addHREntry (entry : HRDraft.t) : Prog :=
  let questions := HRDraft.questions entry in
  r1 <- await InsertHREntrySingle (hrData entry);;
  match r1 with
  | Failure hrError => Throw hrError
  | Success hrEntry =>
      if Nat.ltb 0 (List.length questions) then
        r2 <- await InsertQuestions (questionRows questions hrEntry);;
        match r2 with
        | Failure qError => Throw qError
        | Success _ => Return
        end
      else Return
  end.

Definition addQuestion (question : QuestionDraft.t) : Prog :=
  r <- await InsertQuestionSingle question;;
  match r with
  | Failure error =>
      console_error "Error adding question:" error;;
      Throw error
  | Success data =>
      setQuestions (Updater (fun prev => data :: prev));;
      Return
  end.

Definition addAnswer (answer : AnswerDraft.t) : Prog :=
  r <- await InsertAnswerSingle answer;;
  match r with
  | Failure error =>
      console_error "Error adding answer:" error;;
      Throw error
  | Success data =>
      setAnswers (Updater (fun prev => data :: prev));;
      Return
  end.

Definition jobToInsert (job : JobDraft.t) : JobInsert.t :=
  JobInsert.make (JobDraft.da_name job) (JobDraft.company_name job)
    (JobDraft.job_link job)
    (nullish_or_null (JobDraft.phone_number job))
    (nullish_or_null (JobDraft.file_name job)).

Definition addJob (job : JobDraft.t) : Prog :=
  r <- await InsertJobSingle (jobToInsert job);;
  match r with
  | Failure error =>
      window_alert "Failed to add job opening. Please try again.";;
      console_error "Error adding job:" error;;
      Throw error
  | Success data =>
      setJobs (Updater (fun prev => data :: prev));;
      Return
  end.

(** ** Waiting on several reads at once *)

(** An [async] function of the shape
    [pre; await Promise.all([b1(), ..., bn()]); post]. *)
Record Gather : Type := mkGather {
  pre : list Action;
  branches : list Prog;
  post : list Action
}.

Definition refreshData : Gather :=
  mkGather
    [setLoading (Value true)]
    [fetchHREntries; fetchQuestions; fetchAnswers; fetchJobs]
    [setLoading (Value false)].

(** The state of the promise the gathering function itself returned. *)
Inductive Completion : Type :=
| Waiting
| Resolved
| RejectedWith (e : PostgrestError).

Record Pool : Type := mkPool {
  world : World;
  tasks : list Promise;
  outer : Completion;
  rest : list Action
}.

Definition perform_all (acts : list Action) (w : World) : World :=
  fold_left (fun w a => perform a w) acts w.

(** Calling the branches one after the other: each runs to its first
    [await]. *)
Fixpoint start_all (ps : list Prog) (w : World) : list Promise * World :=
  match ps with
  | [] => ([], w)
  | p :: ps' =>
      let (t, w1) := start p w in
      let (ts, w2) := start_all ps' w1 in
      (t :: ts, w2)
  end.

Definition is_fulfilled (t : Promise) : bool :=
  match t with
  | Fulfilled => true
  | _ => false
  end.

Definition is_pending (t : Promise) : bool :=
  match t with
  | Pending _ _ => true
  | _ => false
  end.

Fixpoint first_rejection (ts : list Promise) : option PostgrestError :=
  match ts with
  | [] => None
  | Rejected e :: _ => Some e
  | _ :: ts' => first_rejection ts'
  end.

(** What [Promise.all] has to say about the branches. *)
Definition gathered (ts : list Promise) : Completion :=
  match first_rejection ts with
  | Some e => RejectedWith e
  | None => if forallb is_fulfilled ts then Resolved else Waiting
  end.

(** While the function waits, [Promise.all] settling wakes it up: a
    rejection is rethrown by the [await], so [post] is skipped; otherwise
    [post] runs.  Once the function has settled nothing changes it. *)
Definition settle (p : Pool) : Pool :=
  match outer p with
  | Waiting =>
      match gathered (tasks p) with
      | Waiting => p
      | Resolved =>
          mkPool (perform_all (rest p) (world p)) (tasks p) Resolved (rest p)
      | RejectedWith e => mkPool (world p) (tasks p) (RejectedWith e) (rest p)
      end
  | _ => p
  end.

Definition launch (g : Gather) (w : World) : Pool :=
  let (ts, w') := start_all (branches g) (perform_all (pre g) w) in
  settle (mkPool w' ts Waiting (post g)).

Fixpoint set_nth {A : Type} (i : nat) (x : A) (l : list A) : list A :=
  match l, i with
  | [], _ => []
  | _ :: l', O => x :: l'
  | y :: l', S i' => y :: set_nth i' x l'
  end.

(** The response awaited by branch [i] arrives.  Nothing happens when
    branch [i] is not waiting for one. *)
Definition resume_at (i : nat) (p : Pool) : Pool :=
  match nth_error (tasks p) i with
  | Some (Pending r k) =>
      let (t, w) := resume (Pending r k) (world p) in
      settle (mkPool w (set_nth i t (tasks p)) (outer p) (rest p))
  | _ => p
  end.

(** A schedule lists the branches in the order their responses arrive. *)
Definition run (sched : list nat) (p : Pool) : Pool :=
  fold_left (fun p i => resume_at i p) sched p.

(** No branch is waiting for a response any more. *)
Definition quiescent (p : Pool) : bool :=
  forallb (fun t => negb (is_pending t)) (tasks p).

(** Branch [i] is waiting for a response. *)
Definition waits (p : Pool) (i : nat) : bool :=
  match nth_error (tasks p) i with
  | Some t => is_pending t
  | None => false
  end.

(** [useEffect(() => { refreshData(); }, [])]: the promise returned by
    [refreshData] is dropped, so if it rejects no handler sees the error
    and the runtime reports an unhandled rejection. *)
Definition report_unhandled (p : Pool) : World :=
  let w := world p in
  match outer p with
  | RejectedWith e =>
      mkWorld (store w) (service w) (console w) (alerts w) (unhandled w ++ [e])
  | _ => w
  end.

Definition mount_effect (sched : list nat) (w : World) : World :=
  report_unhandled (run sched (launch refreshData w)).

(** ** Sample data *)

Module Sample.
Definition no_faults : forall X : Type, Request X -> option PostgrestError :=
  fun _ _ => None.

Definition boom : PostgrestError := mkError "connection refused" "08006".

Definition hr1 : HRRow.t :=
  HRRow.make "id-0" "A" "Acme" "Bob" "555-0100" "t-000000000000".
Definition q1 : Question.t :=
  Question.make "id-1" "Tell me about yourself" "" "" (Some "id-0")
    "t-000000000001".
Definition q2 : Question.t :=
  Question.make "id-2" "Why us?" "general" "Eve" None "t-000000000002".
Definition a1 : Answer.t :=
  Answer.make "id-3" "id-2" "Because" "Dan" "t-000000000003".
Definition j1 : Job.t :=
  Job.make "id-4" "A" "Acme" Null "https://acme.example/jobs/1" Null
    "t-000000000004".

Definition empty_service : Service.t :=
  Service.make [] [] [] [] 0 0 no_faults [].

Definition service : Service.t :=
  Service.make [hr1] [q1; q2] [a1] [j1] 5 5 no_faults [].

Definition with_faults (s : Service.t)
    (f : forall X : Type, Request X -> option PostgrestError) : Service.t :=
  Service.make (Service.hr_entries s) (Service.questions s)
    (Service.answers s) (Service.jobs s) (Service.next_id s)
    (Service.clock s) f (Service.received s).

Definition fresh (s : Service.t) : World :=
  mkWorld Store.initial s [] [] [].

(** A world whose collections already hold earlier data. *)
Definition loaded : World :=
  mkWorld (Store.make [HREntry.make hr1 [q1]] [q2; q1] [a1] [j1] false)
    service [] [] [].

Definition draft : HRDraft.t :=
  HRDraft.make "A" "Acme" "Bob" "555-0100" ["Tell me about yourself"].
End Sample.

(** ** What a full reload is expected to produce *)

(** The row [hr_entries] gains when [entry] is submitted in world [w]. *)
Definition inserted_entry (w : World) (entry : HRDraft.t) : HRRow.t :=
  Service.new_hr (service w) (hrData entry).

(** The error, if any, that the service returns on the HR-entries read
    path: to its [hr_entries] select or, when that one succeeds, to the
    [questions] select that follows it. *)
Definition hr_path_error (s : Service.t) : option PostgrestError :=
  match Service.faults s _ SelectHREntries with
  | Some e => Some e
  | None => Service.faults s _ (SelectQuestions None)
  end.

Definition never_rejects (t : Promise) : bool :=
  match t with
  | Rejected _ => false
  | _ => true
  end.

Section ReloadInvariant.
(** The world in which the reload was started. *)
Variable w0 : World.

(** The reads change no table and no fault. *)
Definition same_data (s : Service.t) : Prop :=
  Service.hr_entries s = Service.hr_entries (service w0)
  /\ Service.questions s = Service.questions (service w0)
  /\ Service.answers s = Service.answers (service w0)
  /\ Service.jobs s = Service.jobs (service w0)
  /\ Service.faults s = Service.faults (service w0).

(** Where [fetchHREntries] can be, with the value [hrEntries] then has. *)
Inductive hr_phase (current : list HREntry.t) : Promise -> Prop :=
| hr_selecting :
    current = Store.hrEntries (store w0) ->
    hr_phase current (fst (start fetchHREntries w0))
| hr_joining :
    Service.faults (service w0) _ SelectHREntries = None ->
    current = Store.hrEntries (store w0) ->
    hr_phase current (fst (resume (fst (start fetchHREntries w0)) w0))
| hr_loaded :
    hr_path_error (service w0) = None ->
    current = hrEntriesWithQuestions (Service.hr_entries (service w0))
                (Service.questions (service w0)) ->
    hr_phase current Fulfilled
| hr_failed e :
    hr_path_error (service w0) = Some e ->
    current = Store.hrEntries (store w0) ->
    hr_phase current (Rejected e).

(** Where one of the three guarded reads can be: [prog] awaits [req],
    [prior] is the collection's value before the reload, [fetched] what
    the service holds, [current] the collection now and [log] the
    console now. *)
Inductive branch_phase {A : Type} (prog : Prog) (req : Request (list A))
    (msg : string) (prior fetched current : list A)
    (log : list (string * PostgrestError)) : Promise -> Prop :=
| branch_waiting :
    current = prior ->
    branch_phase prog req msg prior fetched current log (fst (start prog w0))
| branch_loaded :
    Service.faults (service w0) _ req = None ->
    current = fetched ->
    branch_phase prog req msg prior fetched current log Fulfilled
| branch_degraded e :
    Service.faults (service w0) _ req = Some e ->
    current = prior ->
    In (msg, e) log ->
    branch_phase prog req msg prior fetched current log Fulfilled.

Definition questions_phase (w : World) : Promise -> Prop :=
  branch_phase fetchQuestions (SelectQuestions (Some CreatedAtDesc))
    "Error fetching questions:"
    (Store.questions (store w0))
    (sort_desc Question.created_at (Service.questions (service w0)))
    (Store.questions (store w)) (console w).

Definition answers_phase (w : World) : Promise -> Prop :=
  branch_phase fetchAnswers (SelectAnswers (Some CreatedAtDesc))
    "Error fetching answers:"
    (Store.answers (store w0))
    (sort_desc Answer.created_at (Service.answers (service w0)))
    (Store.answers (store w)) (console w).

Definition jobs_phase (w : World) : Promise -> Prop :=
  branch_phase fetchJobs (SelectJobs (Some CreatedAtDesc))
    "Error fetching jobs:"
    (Store.jobs (store w0))
    (sort_desc Job.created_at (Service.jobs (service w0)))
    (Store.jobs (store w)) (console w).

(** The four reads, in the order [refreshData] calls them. *)
Definition phases (w : World) (ts : list Promise) : Prop :=
  exists t0 t1 t2 t3,
    ts = [t0; t1; t2; t3]
    /\ hr_phase (Store.hrEntries (store w)) t0
    /\ questions_phase w t1
    /\ answers_phase w t2
    /\ jobs_phase w t3.

(** What every state of a reload started in [w0] satisfies. *)
Record reload_inv (p : Pool) : Prop := mkReloadInv {
  inv_data : same_data (service (world p));
  inv_rest : rest p = [setLoading (Value false)];
  inv_tasks : phases (world p) (tasks p);
  inv_outer : outer p = gathered (tasks p);
  inv_loading :
    Store.loading (store (world p))
    = match outer p with Resolved => false | _ => true end;
  inv_unhandled : unhandled (world p) = unhandled w0
}.
End ReloadInvariant.

(** ** The state a reload comes to rest in *)

(** Field by field, what the four reads of a reload started in [w] leave in
    the provider's state once they have all settled. *)
Definition reloaded (w : World) : Store.t :=
  let s := service w in
  let guarded {A : Type} (req : Request (list A)) (fetched prior : list A) :=
    match Service.faults s _ req with
    | None => fetched
    | Some _ => prior
    end in
  Store.make
    (match hr_path_error s with
     | None =>
         hrEntriesWithQuestions (Service.hr_entries s) (Service.questions s)
     | Some _ => Store.hrEntries (store w)
     end)
    (guarded (SelectQuestions (Some CreatedAtDesc))
       (sort_desc Question.created_at (Service.questions s))
       (Store.questions (store w)))
    (guarded (SelectAnswers (Some CreatedAtDesc))
       (sort_desc Answer.created_at (Service.answers s))
       (Store.answers (store w)))
    (guarded (SelectJobs (Some CreatedAtDesc))
       (sort_desc Job.created_at (Service.jobs s))
       (Store.jobs (store w)))
    (match hr_path_error s with
     | None => false
     | Some _ => true
     end).

(** The service with another fault plan. *)
Definition with_faults (s : Service.t)
    (f : forall X : Type, Request X -> option PostgrestError) : Service.t :=
  Service.make (Service.hr_entries s) (Service.questions s)
    (Service.answers s) (Service.jobs s) (Service.next_id s)
    (Service.clock s) f (Service.received s).

(** ** What runs in the background *)

Definition is_select {X : Type} (r : Request X) : bool :=
  match r with
  | SelectHREntries | SelectQuestions _ | SelectAnswers _ | SelectJobs _ => true
  | _ => false
  end.

Definition sent_is_select (s : Sent) : bool :=
  match s with
  | sent r => is_select r
  end.

Definition is_alert (a : Action) : bool :=
  match a with
  | window_alert _ => true
  | _ => false
  end.

(** A body that, whatever the service answers, only ever sends selects and
    never shows an alert. *)
Inductive background : Prog -> Prop :=
| bg_return : background Return
| bg_throw e : background (Throw e)
| bg_await {X : Type} (r : Request X) k :
    is_select r = true ->
    (forall resp, background (k resp)) ->
    background (Await r k)
| bg_do a k :
    is_alert a = false -> background k -> background (Do a k).

Definition background_promise (t : Promise) : Prop :=
  match t with
  | Pending r k => is_select r = true /\ forall resp, background (k resp)
  | _ => True
  end.

(** [w'] differs from [w] by what background work may do: the service has
    received more selects, nothing else about it has changed, and the same
    alerts have been shown. *)
Definition read_only_since (w w' : World) : Prop :=
  let s := service w in
  let s' := service w' in
  Service.hr_entries s' = Service.hr_entries s
  /\ Service.questions s' = Service.questions s
  /\ Service.answers s' = Service.answers s
  /\ Service.jobs s' = Service.jobs s
  /\ Service.next_id s' = Service.next_id s
  /\ Service.clock s' = Service.clock s
  /\ alerts w' = alerts w
  /\ exists more,
      Service.received s' = Service.received s ++ more
      /\ forallb sent_is_select more = true.

(** What every state of a gathering function with background branches
    satisfies. *)
Definition background_pool (g : Gather) (w0 : World) (p : Pool) : Prop :=
  Forall background_promise (tasks p)
  /\ rest p = post g
  /\ read_only_since w0 (world p).

(** ** The HR database page *)

(** [s.includes(t)]: [t] occurs somewhere in [s]. *)
Fixpoint includes (s t : string) : bool :=
  String.prefix t s
  || match s with
     | EmptyString => false
     | String _ s' => includes s' t
     end.

(** [toLowerCase] of one character of ASCII text: the letters A to Z become
    a to z, every other character is kept. *)
Definition lower (c : ascii) : ascii :=
  let n := nat_of_ascii c in
  if Nat.leb 65 n && Nat.leb n 90 then ascii_of_nat (n + 32) else c.

(** [s.toLowerCase()], for ASCII text. *)
Fixpoint toLowerCase (s : string) : string :=
  match s with
  | EmptyString => EmptyString
  | String c s' => String (lower c) (toLowerCase s')
  end.

(** The text is ASCII: where it is, [toLowerCase] above is what JavaScript
    computes. *)
Definition ascii_text (s : string) : bool :=
  forallb (fun c => Nat.ltb (nat_of_ascii c) 128) (list_ascii_of_string s).

(** Two characters that are the same letter in either case, or the same
    character. *)
Definition same_letter (c d : ascii) : bool :=
  let upper (x : ascii) :=
    Nat.leb 65 (nat_of_ascii x) && Nat.leb (nat_of_ascii x) 90 in
  Ascii.eqb c d
  || (upper c && Nat.eqb (nat_of_ascii d) (nat_of_ascii c + 32))
  || (upper d && Nat.eqb (nat_of_ascii c) (nat_of_ascii d + 32)).

(** Two texts that differ at most in the case of their letters. *)
Fixpoint same_text (s t : string) : bool :=
  match s, t with
  | EmptyString, EmptyString => true
  | String c s', String d t' => same_letter c d && same_text s' t'
  | _, _ => false
  end.

(** A string in a condition: the empty string is falsy, every other one
    truthy. *)
Definition truthy (s : string) : bool := negb (String.eqb s "").

(** The three [useState] cells of [HRDatabase]; [formData] has the shape
    [addHREntry] takes. *)
Module View.
Record t : Type := make {
  searchTerm : string;
  showForm : bool;
  formData : HRDraft.t
}.

(** The form as [useState] creates it and as a successful submit resets
    it. *)
Definition blank : HRDraft.t := HRDraft.make "" "" "" "" [""].

Definition initial : t := make "" false blank.

Definition setFormData (v : t) (f : HRDraft.t) : t :=
  make (searchTerm v) (showForm v) f.
End View.

(** [{ ...formData, questions: qs }] *)
Definition with_questions (f : HRDraft.t) (qs : list string) : HRDraft.t :=
  HRDraft.make (HRDraft.da_name f) (HRDraft.company_name f)
    (HRDraft.hr_name f) (HRDraft.hr_contact f) qs.

Definition filteredEntries (hrEntries : list HREntry.t) (searchTerm : string)
  : list HREntry.t :=
  filter (fun entry =>
            includes (toLowerCase (HRRow.company_name (HREntry.row entry)))
              (toLowerCase searchTerm)
            || includes (toLowerCase (HRRow.hr_name (HREntry.row entry)))
                 (toLowerCase searchTerm)
            || includes (HRRow.hr_contact (HREntry.row entry)) searchTerm)
    hrEntries.

(** [updated[idx] = value] on a [string[]]: a position of the array is
    overwritten and the position just past its end is appended.  Further
    out JavaScript leaves holes, which no [string[]] has: that result is
    [None]. *)
Fixpoint array_set (a : list string) (idx : nat) (value : string)
  : option (list string) :=
  match a, idx with
  | [], O => Some [value]
  | [], S _ => None
  | _ :: a', O => Some (value :: a')
  | x :: a', S idx' => option_map (cons x) (array_set a' idx' value)
  end.

Definition handleQuestionChange (idx : nat) (value : string) (v : View.t)
  : option View.t :=
  option_map
    (fun updated =>
       View.setFormData v (with_questions (View.formData v) updated))
    (array_set (HRDraft.questions (View.formData v)) idx value).

Definition handleAddQuestion (v : View.t) : View.t :=
  View.setFormData v
    (with_questions (View.formData v)
       (HRDraft.questions (View.formData v) ++ [""])).

(** [handleSubmit], run with the insert requests answered at once.  The
    [try] block awaits [addHREntry]; its [catch] takes every rejection. *)
Definition handleSubmit (v : View.t) (w : World) : View.t * World :=
  let formData := View.formData v in
  if truthy (HRDraft.da_name formData)
     && truthy (HRDraft.company_name formData)
     && truthy (HRDraft.hr_name formData)
     && truthy (HRDraft.hr_contact formData)
  then
    match exec (addHREntry formData) w with
    | (Fulfilled, w') =>
        (View.make (View.searchTerm v) false View.blank,
         perform (window_alert "HR entry added successfully!") w')
    | (Rejected error, w') =>
        (v,
         perform (window_alert "Failed to add HR entry. Please try again.")
           (perform (console_error "Error adding HR entry:" error) w'))
    | (Pending _ _, w') => (v, w')
    end
  else (v, w).

(** What the user can do on the page. *)
Inductive Event : Type :=
| ChangeSearch (value : string)
| ClickAddEntry
| ClickCancel
| ChangeDaName (value : string)
| ChangeCompanyName (value : string)
| ChangeHrName (value : string)
| ChangeHrContact (value : string)
| ChangeQuestion (idx : nat) (value : string)
| ClickPlus
| SubmitForm.

(** The handler each event is bound to in the markup. *)
Definition dispatch (ev : Event) (vw : View.t * World)
  : option (View.t * World) :=
  let (v, w) := vw in
  let f := View.formData v in
  match ev with
  | ChangeSearch value =>
      Some (View.make value (View.showForm v) f, w)
  | ClickAddEntry => Some (View.make (View.searchTerm v) true f, w)
  | ClickCancel => Some (View.make (View.searchTerm v) false f, w)
  | ChangeDaName value =>
      Some (View.setFormData v
              (HRDraft.make value (HRDraft.company_name f) (HRDraft.hr_name f)
                 (HRDraft.hr_contact f) (HRDraft.questions f)), w)
  | ChangeCompanyName value =>
      Some (View.setFormData v
              (HRDraft.make (HRDraft.da_name f) value (HRDraft.hr_name f)
                 (HRDraft.hr_contact f) (HRDraft.questions f)), w)
  | ChangeHrName value =>
      Some (View.setFormData v
              (HRDraft.make (HRDraft.da_name f) (HRDraft.company_name f) value
                 (HRDraft.hr_contact f) (HRDraft.questions f)), w)
  | ChangeHrContact value =>
      Some (View.setFormData v
              (HRDraft.make (HRDraft.da_name f) (HRDraft.company_name f)
                 (HRDraft.hr_name f) value (HRDraft.questions f)), w)
  | ChangeQuestion idx value =>
      option_map (fun v' => (v', w)) (handleQuestionChange idx value v)
  | ClickPlus => Some (handleAddQuestion v, w)
  | SubmitForm => Some (handleSubmit v w)
  end.

(** A session: the events of the user, one after the other. *)
Fixpoint session (evs : list Event) (vw : View.t * World)
  : option (View.t * World) :=
  match evs with
  | [] => Some vw
  | ev :: evs' =>
      match dispatch ev vw with
      | Some vw' => session evs' vw'
      | None => None
      end
  end.

(** [entry.questions && entry.questions.length > 0]: the card shows its
    list of questions. *)
Definition shows_questions (entry : HREntry.t) : bool :=
  Nat.ltb 0 (List.length (HREntry.questions entry)).

(** What the component returns, with the markup reduced to its branches:
    the loading placeholder, or the page with the form modal when it is
    open and either the "No HR entries found" line or one card per entry
    of [filteredEntries].  A card that shows its questions puts each
    element of [entry.questions] between the tags of a list item; the
    elements are question rows, objects, and React throws on an object
    given as a child, so rendering such a card throws. *)
Inductive Listing : Type :=
| NoEntriesFound
| Cards (entries : list HREntry.t).

Inductive Screen : Type :=
| LoadingPlaceholder
| Page (modal : option HRDraft.t) (listing : Listing)
| RenderThrows.

Definition HRDatabase (v : View.t) (s : Store.t) : Screen :=
  if Store.loading s then LoadingPlaceholder
  else
    let filtered := filteredEntries (Store.hrEntries s) (View.searchTerm v) in
    if existsb shows_questions filtered then RenderThrows
    else
      Page (if View.showForm v then Some (View.formData v) else None)
        (if Nat.eqb (List.length filtered) 0 then NoEntriesFound
         else Cards filtered).

(** * Properties *)

(** ** The definitions on sample data *)

Example timestamps_sort_in_time :
  String.ltb (Service.timestamp 9) (Service.timestamp 10) = true.
Proof. reflexivity. Qed.

Example sort_desc_sample :
  sort_desc Question.created_at [Sample.q1; Sample.q2] = [Sample.q2; Sample.q1].
Proof. reflexivity. Qed.

Example hrEntriesWithQuestions_sample :
  hrEntriesWithQuestions [Sample.hr1] [Sample.q1; Sample.q2]
  = [HREntry.make Sample.hr1 [Sample.q1]].
Proof. reflexivity. Qed.

Example jobToInsert_sample :
  jobToInsert (JobDraft.make "A" "Acme" Undefined "https://x.example" (Str ""))
  = JobInsert.make "A" "Acme" "https://x.example" Null (Str "").
Proof. reflexivity. Qed.

Example refreshData_sample :
  let p := run [3; 0; 1; 0; 2] (launch refreshData (Sample.fresh Sample.service)) in
  store (world p)
  = Store.make [HREntry.make Sample.hr1 [Sample.q1]] [Sample.q2; Sample.q1]
      [Sample.a1] [Sample.j1] false
  /\ outer p = Resolved.
Proof. split; reflexivity. Qed.

Example refreshData_still_waiting :
  let p := run [3; 0; 1] (launch refreshData (Sample.fresh Sample.service)) in
  Store.loading (store (world p)) = true /\ outer p = Waiting
  /\ quiescent p = false.
Proof. repeat split. Qed.

(** ** The service answers as its fault plan says *)

Lemma serve_fault {X : Type} (r : Request X) (s : Service.t) e :
  Service.faults s X r = Some e ->
  Service.serve r s = (Failure e, Service.log r s).
Proof. unfold Service.serve; intros ->; reflexivity. Qed.

Lemma serve_ok {X : Type} (r : Request X) (s : Service.t) :
  Service.faults s X r = None ->
  Service.serve r s = Service.perform r (Service.log r s).
Proof. unfold Service.serve; intros ->; reflexivity. Qed.

Lemma exec_await_fault {X : Type} (r : Request X) k w e :
  Service.faults (service w) X r = Some e ->
  exec (Await r k) w
  = exec (k (Failure e)) (with_service w (Service.log r (service w))).
Proof. intros H; cbn [exec]; rewrite (serve_fault _ _ _ H); reflexivity. Qed.

Lemma exec_await_ok {X : Type} (r : Request X) k w :
  Service.faults (service w) X r = None ->
  exec (Await r k) w
  = (let (resp, svc) := Service.perform r (Service.log r (service w)) in
     exec (k resp) (with_service w svc)).
Proof. intros H; cbn [exec]; rewrite (serve_ok _ _ H); reflexivity. Qed.

(** ** Add Question, Add Answer, Add Job *)

(** C4: when the insert succeeds, Add Question, Add Answer and Add Job each
    fulfil and leave their collection with the inserted row at index 0 and
    every earlier row one position further, in the same order. *)
Theorem add_puts_new_row_first (w : World) :
  (forall question,
      Service.faults (service w) _ (InsertQuestionSingle question) = None ->
      exists data w',
        exec (addQuestion question) w = (Fulfilled, w')
        /\ Service.questions (service w')
           = Service.questions (service w) ++ [data]
        /\ Store.questions (store w') = data :: Store.questions (store w)
        /\ nth_error (Store.questions (store w')) 0 = Some data
        /\ forall i, nth_error (Store.questions (store w')) (S i)
                     = nth_error (Store.questions (store w)) i)
  /\ (forall answer,
      Service.faults (service w) _ (InsertAnswerSingle answer) = None ->
      exists data w',
        exec (addAnswer answer) w = (Fulfilled, w')
        /\ Service.answers (service w') = Service.answers (service w) ++ [data]
        /\ Store.answers (store w') = data :: Store.answers (store w)
        /\ nth_error (Store.answers (store w')) 0 = Some data
        /\ forall i, nth_error (Store.answers (store w')) (S i)
                     = nth_error (Store.answers (store w)) i)
  /\ (forall job,
      Service.faults (service w) _ (InsertJobSingle (jobToInsert job)) = None ->
      exists data w',
        exec (addJob job) w = (Fulfilled, w')
        /\ Service.jobs (service w') = Service.jobs (service w) ++ [data]
        /\ Store.jobs (store w') = data :: Store.jobs (store w)
        /\ nth_error (Store.jobs (store w')) 0 = Some data
        /\ forall i, nth_error (Store.jobs (store w')) (S i)
                     = nth_error (Store.jobs (store w)) i).
Proof.
  repeat split; intros x H.
  - unfold addQuestion; rewrite (exec_await_ok _ _ _ H); cbn.
    eexists; eexists; repeat split.
  - unfold addAnswer; rewrite (exec_await_ok _ _ _ H); cbn.
    eexists; eexists; repeat split.
  - unfold addJob; rewrite (exec_await_ok _ _ _ H); cbn.
    eexists; eexists; repeat split.
Qed.

Lemma add_puts_new_row_first_witness :
  let w := Sample.loaded in
  (exists data w',
      exec (addQuestion (QuestionDraft.make "Why?" "culture" "Eve")) w
      = (Fulfilled, w')
      /\ Store.questions (store w') = data :: Store.questions (store w))
  /\ (exists data w',
      exec (addAnswer (AnswerDraft.make "id-2" "Because" "Dan")) w
      = (Fulfilled, w')
      /\ Store.answers (store w') = data :: Store.answers (store w))
  /\ (exists data w',
      exec (addJob (JobDraft.make "A" "Acme" Undefined "https://x.example" Null)) w
      = (Fulfilled, w')
      /\ Store.jobs (store w') = data :: Store.jobs (store w)).
Proof.
  intros w.
  destruct (add_puts_new_row_first w) as (HQ & HA & HJ).
  split; [|split].
  - destruct (HQ (QuestionDraft.make "Why?" "culture" "Eve") eq_refl)
      as (data & w' & E & _ & S & _).
    exists data, w'; split; [exact E | exact S].
  - destruct (HA (AnswerDraft.make "id-2" "Because" "Dan") eq_refl)
      as (data & w' & E & _ & S & _).
    exists data, w'; split; [exact E | exact S].
  - destruct (HJ (JobDraft.make "A" "Acme" Undefined "https://x.example" Null)
                eq_refl) as (data & w' & E & _ & S & _).
    exists data, w'; split; [exact E | exact S].
Defined.

(** ** Add HR Entry *)

Lemma new_questions_length stamp rs : forall n,
  List.length (Service.new_questions stamp n rs) = List.length rs.
Proof. induction rs as [|r rs IH]; intros n; cbn; [|rewrite IH]; reflexivity. Qed.

Lemma new_questions_rows stamp hrEntry questions : forall n,
  let rows := Service.new_questions stamp n (questionRows questions hrEntry) in
  map Question.text rows = questions
  /\ Forall (fun q => Question.hr_entry_id q = Some (HRRow.id hrEntry)
                      /\ Question.topic q = ""
                      /\ Question.asked_by q = "") rows.
Proof.
  induction questions as [|q questions IH]; intros n; cbn.
  - split; [reflexivity | constructor].
  - destruct (IH (S n)) as [Htext Hall]; split.
    + f_equal; exact Htext.
    + constructor; [cbn; auto | exact Hall].
Qed.

(** Add HR Entry never touches the provider's state, whatever the service
    answers. *)
Lemma addHREntry_store entry w :
  store (snd (exec (addHREntry entry) w)) = store w.
Proof.
  unfold addHREntry.
  destruct (Service.faults (service w) _ (InsertHREntrySingle (hrData entry)))
    as [e|] eqn:Hhr.
  - rewrite (exec_await_fault _ _ _ _ Hhr); reflexivity.
  - rewrite (exec_await_ok _ _ _ Hhr); cbn.
    destruct (List.length (HRDraft.questions entry)); cbn [exec]; [reflexivity|].
    unfold Service.serve.
    match goal with |- context [Service.faults ?s ?X ?r] =>
      destruct (Service.faults s X r) end; reflexivity.
Qed.

(** C1: a submission with N question texts that the service accepts adds
    exactly one row to [hr_entries] and exactly N rows to [questions]; every
    added question row carries the new entry's id as [hr_entry_id] and the
    empty string as [topic] and [asked_by]. *)
Theorem addHREntry_inserts_one_entry_and_N_questions
    (entry : HRDraft.t) (w : World) :
  Service.faults (service w) _ (InsertHREntrySingle (hrData entry)) = None ->
  (HRDraft.questions entry <> [] ->
   Service.faults (service w) _
     (InsertQuestions
        (questionRows (HRDraft.questions entry) (inserted_entry w entry)))
   = None) ->
  exists (hrEntry : HRRow.t) (rows : list Question.t) (w' : World),
    exec (addHREntry entry) w = (Fulfilled, w')
    /\ Service.hr_entries (service w')
       = Service.hr_entries (service w) ++ [hrEntry]
    /\ Service.questions (service w') = Service.questions (service w) ++ rows
    /\ List.length rows = List.length (HRDraft.questions entry)
    /\ map Question.text rows = HRDraft.questions entry
    /\ Forall (fun q => Question.hr_entry_id q = Some (HRRow.id hrEntry)
                        /\ Question.topic q = ""
                        /\ Question.asked_by q = "") rows
    /\ Service.answers (service w') = Service.answers (service w)
    /\ Service.jobs (service w') = Service.jobs (service w).
Proof.
  intros Hhr Hq.
  set (hrEntry := inserted_entry w entry) in *.
  pose (rows := Service.new_questions
                  (Service.timestamp (S (Service.clock (service w))))
                  (S (Service.next_id (service w)))
                  (questionRows (HRDraft.questions entry) hrEntry)).
  destruct (new_questions_rows
              (Service.timestamp (S (Service.clock (service w)))) hrEntry
              (HRDraft.questions entry) (S (Service.next_id (service w))))
    as [Htext Hall].
  assert (Hlen : List.length rows = List.length (HRDraft.questions entry)).
  { unfold rows, questionRows.
    rewrite new_questions_length, length_map; reflexivity. }
  exists hrEntry, rows.
  unfold addHREntry; rewrite (exec_await_ok _ _ _ Hhr); cbn [Service.perform].
  destruct (Nat.ltb 0 (List.length (HRDraft.questions entry))) eqn:Hn.
  - assert (Hne : HRDraft.questions entry <> []).
    { intros Hnil; rewrite Hnil in Hn; discriminate. }
    rewrite exec_await_ok by exact (Hq Hne); cbn [Service.perform exec].
    eexists; split; [reflexivity|].
    repeat split; try reflexivity; assumption.
  - apply Nat.ltb_ge in Hn.
    assert (Hnil : rows = []).
    { destruct rows; [reflexivity | cbn in Hlen; lia]. }
    cbn [exec]; eexists; split; [reflexivity|].
    split; [reflexivity|].
    split; [rewrite Hnil, app_nil_r; reflexivity|].
    repeat split; try reflexivity; assumption.
Qed.

Lemma addHREntry_inserts_one_entry_and_N_questions_witness :
  exists hrEntry rows w',
    exec (addHREntry Sample.draft) Sample.loaded = (Fulfilled, w')
    /\ Service.hr_entries (service w') = [Sample.hr1; hrEntry]
    /\ Service.questions (service w') = [Sample.q1; Sample.q2] ++ rows
    /\ List.length rows = 1
    /\ Forall (fun q => Question.hr_entry_id q = Some (HRRow.id hrEntry)
                        /\ Question.topic q = ""
                        /\ Question.asked_by q = "") rows.
Proof.
  destruct (addHREntry_inserts_one_entry_and_N_questions
              Sample.draft Sample.loaded eq_refl (fun _ => eq_refl))
    as (hrEntry & rows & w' & E & Hhr & Hq & Hlen & _ & Hall & _).
  exists hrEntry, rows, w'; repeat split; assumption.
Defined.

(** C8: a successful Add HR Entry leaves [hrEntries], [questions],
    [answers], [jobs] and [loading] exactly as they were. *)
Theorem addHREntry_keeps_local_state (entry : HRDraft.t) (w w' : World) :
  exec (addHREntry entry) w = (Fulfilled, w') ->
  store w' = store w
  /\ Store.hrEntries (store w') = Store.hrEntries (store w)
  /\ Store.questions (store w') = Store.questions (store w)
  /\ Store.answers (store w') = Store.answers (store w)
  /\ Store.jobs (store w') = Store.jobs (store w)
  /\ Store.loading (store w') = Store.loading (store w).
Proof.
  intros E.
  assert (H : store w' = store w).
  { pose proof (addHREntry_store entry w) as H; rewrite E in H; exact H. }
  rewrite H; repeat split.
Qed.

Lemma addHREntry_keeps_local_state_witness :
  store (snd (exec (addHREntry Sample.draft) Sample.loaded))
  = store Sample.loaded.
Proof.
  exact (proj1 (addHREntry_keeps_local_state Sample.draft Sample.loaded
                  (snd (exec (addHREntry Sample.draft) Sample.loaded))
                  eq_refl)).
Defined.

(** C7: when the entry row is inserted and the batch insert of its question
    rows then fails, Add HR Entry rejects with that error while [hr_entries]
    keeps the new row; the only requests made are the two inserts, so nothing
    takes the row back. *)
Theorem addHREntry_partial_write
    (entry : HRDraft.t) (w : World) (e : PostgrestError) :
  HRDraft.questions entry <> [] ->
  Service.faults (service w) _ (InsertHREntrySingle (hrData entry)) = None ->
  Service.faults (service w) _
    (InsertQuestions
       (questionRows (HRDraft.questions entry) (inserted_entry w entry)))
  = Some e ->
  exists w',
    exec (addHREntry entry) w = (Rejected e, w')
    /\ Service.hr_entries (service w')
       = Service.hr_entries (service w) ++ [inserted_entry w entry]
    /\ Service.questions (service w') = Service.questions (service w)
    /\ Service.received (service w')
       = Service.received (service w)
         ++ [sent (InsertHREntrySingle (hrData entry));
             sent (InsertQuestions
                     (questionRows (HRDraft.questions entry)
                        (inserted_entry w entry)))].
Proof.
  intros Hne Hhr Hq.
  unfold addHREntry; rewrite (exec_await_ok _ _ _ Hhr); cbn [Service.perform].
  destruct (HRDraft.questions entry) as [|q qs] eqn:Eqs; [congruence|].
  cbn [List.length Nat.ltb Nat.leb].
  rewrite exec_await_fault with (e := e) by exact Hq.
  cbn [exec]; eexists; split; [reflexivity|].
  split; [reflexivity|]. split; [reflexivity|].
  cbn; rewrite <- app_assoc; reflexivity.
Qed.

Lemma addHREntry_partial_write_witness :
  let fail_batch : forall X : Type, Request X -> option PostgrestError :=
    fun X r => match r with InsertQuestions _ => Some Sample.boom | _ => None end in
  let w := Sample.fresh (Sample.with_faults Sample.service fail_batch) in
  exists w',
    exec (addHREntry Sample.draft) w = (Rejected Sample.boom, w')
    /\ Service.hr_entries (service w')
       = [Sample.hr1; inserted_entry w Sample.draft]
    /\ Service.questions (service w') = [Sample.q1; Sample.q2].
Proof.
  intros fail_batch w.
  destruct (addHREntry_partial_write Sample.draft w Sample.boom)
    as (w' & E & Hhr & Hq & _);
    [discriminate | reflexivity | reflexivity |].
  exists w'; repeat split; assumption.
Defined.

(** ** Failed inserts *)

Lemma addHREntry_rejects_on_batch_fault entry w e :
  HRDraft.questions entry <> [] ->
  Service.faults (service w) _ (InsertHREntrySingle (hrData entry)) = None ->
  Service.faults (service w) _
    (InsertQuestions
       (questionRows (HRDraft.questions entry) (inserted_entry w entry)))
  = Some e ->
  fst (exec (addHREntry entry) w) = Rejected e.
Proof.
  intros Hne Hhr Hq.
  unfold addHREntry; rewrite (exec_await_ok _ _ _ Hhr); cbn [Service.perform].
  destruct (HRDraft.questions entry) as [|q qs] eqn:Eqs; [congruence|].
  cbn [List.length Nat.ltb Nat.leb].
  rewrite exec_await_fault with (e := e) by exact Hq.
  reflexivity.
Qed.

(** C5: when the service answers an insert with an error, each mutation
    operation rejects with that error and the provider's collections are
    what they were before the call.  For Add HR Entry this covers both of
    its inserts. *)
Theorem failed_insert_propagates_and_keeps_collections
    (w : World) (e : PostgrestError) :
  (forall entry,
      Service.faults (service w) _ (InsertHREntrySingle (hrData entry))
      = Some e ->
      exists w', exec (addHREntry entry) w = (Rejected e, w')
                 /\ store w' = store w)
  /\ (forall entry,
      HRDraft.questions entry <> [] ->
      Service.faults (service w) _ (InsertHREntrySingle (hrData entry))
      = None ->
      Service.faults (service w) _
        (InsertQuestions
           (questionRows (HRDraft.questions entry) (inserted_entry w entry)))
      = Some e ->
      exists w', exec (addHREntry entry) w = (Rejected e, w')
                 /\ store w' = store w)
  /\ (forall question,
      Service.faults (service w) _ (InsertQuestionSingle question) = Some e ->
      exists w', exec (addQuestion question) w = (Rejected e, w')
                 /\ store w' = store w)
  /\ (forall answer,
      Service.faults (service w) _ (InsertAnswerSingle answer) = Some e ->
      exists w', exec (addAnswer answer) w = (Rejected e, w')
                 /\ store w' = store w)
  /\ (forall job,
      Service.faults (service w) _ (InsertJobSingle (jobToInsert job))
      = Some e ->
      exists w', exec (addJob job) w = (Rejected e, w')
                 /\ store w' = store w).
Proof.
  split; [|split; [|split; [|split]]].
  - intros entry H.
    unfold addHREntry; rewrite (exec_await_fault _ _ _ _ H).
    eexists; split; reflexivity.
  - intros entry Hne Hhr Hq.
    pose proof (addHREntry_rejects_on_batch_fault entry w e Hne Hhr Hq) as Hr.
    pose proof (addHREntry_store entry w) as Hs.
    destruct (exec (addHREntry entry) w) as [r w']; cbn in Hr, Hs; subst r.
    exists w'; split; [reflexivity | exact Hs].
  - intros question H.
    unfold addQuestion; rewrite (exec_await_fault _ _ _ _ H).
    eexists; split; reflexivity.
  - intros answer H.
    unfold addAnswer; rewrite (exec_await_fault _ _ _ _ H).
    eexists; split; reflexivity.
  - intros job H.
    unfold addJob; rewrite (exec_await_fault _ _ _ _ H).
    eexists; split; reflexivity.
Qed.

Lemma failed_insert_propagates_and_keeps_collections_witness :
  let fail_inserts : forall X : Type, Request X -> option PostgrestError :=
    fun X r =>
      match r with
      | InsertHREntrySingle _ | InsertQuestionSingle _
      | InsertAnswerSingle _ | InsertJobSingle _ => Some Sample.boom
      | _ => None
      end in
  let fail_batch : forall X : Type, Request X -> option PostgrestError :=
    fun X r => match r with InsertQuestions _ => Some Sample.boom | _ => None end in
  let w1 :=
    mkWorld (store Sample.loaded)
      (Sample.with_faults Sample.service fail_inserts) [] [] [] in
  let w2 :=
    mkWorld (store Sample.loaded)
      (Sample.with_faults Sample.service fail_batch) [] [] [] in
  (exists w', exec (addHREntry Sample.draft) w1 = (Rejected Sample.boom, w')
              /\ store w' = store w1)
  /\ (exists w', exec (addHREntry Sample.draft) w2 = (Rejected Sample.boom, w')
                 /\ store w' = store w2)
  /\ (exists w', exec (addQuestion (QuestionDraft.make "Why?" "" "Eve")) w1
                 = (Rejected Sample.boom, w')
                 /\ store w' = store w1)
  /\ (exists w', exec (addAnswer (AnswerDraft.make "id-2" "Because" "Dan")) w1
                 = (Rejected Sample.boom, w')
                 /\ store w' = store w1)
  /\ (exists w',
         exec (addJob (JobDraft.make "A" "Acme" Undefined "https://x.example"
                         Undefined)) w1
         = (Rejected Sample.boom, w')
         /\ store w' = store w1).
Proof.
  intros fail_inserts fail_batch w1 w2.
  destruct (failed_insert_propagates_and_keeps_collections w1 Sample.boom)
    as (H1 & _ & H3 & H4 & H5).
  destruct (failed_insert_propagates_and_keeps_collections w2 Sample.boom)
    as (_ & H2 & _).
  split; [apply H1; reflexivity|].
  split; [apply H2; [discriminate | reflexivity | reflexivity]|].
  split; [apply H3; reflexivity|].
  split; [apply H4; reflexivity | apply H5; reflexivity].
Defined.

(** ** Add Job *)



(** ** The concurrent wait *)

Lemma first_rejection_skip t ts :
  never_rejects t = true -> first_rejection (t :: ts) = first_rejection ts.
Proof. destruct t; cbn; congruence. Qed.

Lemma first_rejection_set_nth ts e t' : forall i X (r : Request X) k,
  nth_error ts i = Some (Pending r k) ->
  first_rejection ts = Some e ->
  never_rejects t' = true ->
  first_rejection (set_nth i t' ts) = Some e.
Proof.
  induction ts as [|t ts IH]; intros i X r k Hnth Hfirst Hnever;
    [discriminate|].
  destruct i as [|i]; cbn in Hnth.
  - injection Hnth as ->; cbn [set_nth].
    rewrite first_rejection_skip by assumption; exact Hfirst.
  - destruct t; cbn in *; eauto.
Qed.

Lemma fulfilled_not_pending ts : forall i X (r : Request X) k,
  forallb is_fulfilled ts = true ->
  nth_error ts i = Some (Pending r k) -> False.
Proof.
  induction ts as [|t ts IH]; intros [|i] X r k Hall Hnth; cbn in *;
    try discriminate.
  - injection Hnth as ->; discriminate.
  - apply andb_prop in Hall as [_ Hall]; eauto.
Qed.

(** Once a branch waiting for its response moves on, the gathering function
    is in the state [Promise.all] dictates, provided a new rejection cannot
    come after an older one. *)
Lemma gathered_after_step ts i X (r : Request X) k t' :
  nth_error ts i = Some (Pending r k) ->
  never_rejects t' = true \/ first_rejection ts = None ->
  match gathered ts with
  | Waiting => gathered (set_nth i t' ts)
  | o => o
  end = gathered (set_nth i t' ts).
Proof.
  intros Hnth Hside; unfold gathered at 1.
  destruct (first_rejection ts) as [e|] eqn:Hfirst.
  - destruct Hside as [Hnever|]; [|discriminate].
    unfold gathered.
    rewrite first_rejection_set_nth with (e := e) (r := r) (k := k);
      auto.
  - destruct (forallb is_fulfilled ts) eqn:Hall; [|reflexivity].
    destruct (fulfilled_not_pending ts i X r k Hall Hnth).
Qed.

Lemma settle_outer p :
  outer (settle p)
  = match outer p with Waiting => gathered (tasks p) | o => o end.
Proof.
  unfold settle; destruct (outer p) eqn:Ho; cbn; try assumption.
  destruct (gathered (tasks p)); cbn; try reflexivity; assumption.
Qed.

Lemma settle_tasks p : tasks (settle p) = tasks p.
Proof.
  unfold settle; destruct (outer p); try reflexivity.
  destruct (gathered (tasks p)); reflexivity.
Qed.

Lemma settle_rest p : rest (settle p) = rest p.
Proof.
  unfold settle; destruct (outer p); try reflexivity.
  destruct (gathered (tasks p)); reflexivity.
Qed.

(** Settling changes the world only by running [post], and only on the
    move from waiting to resolved. *)
Lemma settle_world p :
  (world (settle p) = world p /\ (outer p = Waiting -> outer (settle p) <> Resolved))
  \/ (world (settle p) = perform_all (rest p) (world p)
      /\ outer p = Waiting /\ outer (settle p) = Resolved).
Proof.
  unfold settle; destruct (outer p) eqn:Ho.
  - destruct (gathered (tasks p)); cbn.
    + left; split; [reflexivity | intros _; congruence].
    + right; auto.
    + left; split; [reflexivity | intros _; discriminate].
  - left; split; [reflexivity | discriminate].
  - left; split; [reflexivity | discriminate].
Qed.

Lemma run_app sched1 sched2 p :
  run (sched1 ++ sched2) p = run sched2 (run sched1 p).
Proof. unfold run; apply fold_left_app. Qed.

Lemma run_cons i sched p : run (i :: sched) p = run sched (resume_at i p).
Proof. reflexivity. Qed.

(** ** Every state of a full reload *)

Section ReloadStates.
Variable w0 : World.

Lemma branch_phase_never_rejects {A : Type} prog (req : Request (list A))
    msg prior fetched current log t :
  (exists X (r : Request X) k, fst (start prog w0) = Pending r k) ->
  branch_phase w0 prog req msg prior fetched current log t ->
  never_rejects t = true.
Proof.
  intros (X & r & k & Hstart) []; [rewrite Hstart|..]; reflexivity.
Qed.

Lemma branch_phase_frame {A : Type} prog (req : Request (list A))
    msg prior fetched current log more t :
  branch_phase w0 prog req msg prior fetched current log t ->
  branch_phase w0 prog req msg prior fetched current (log ++ more) t.
Proof.
  intros []; [constructor 1 | constructor 2 | econstructor 3]; eauto.
  apply in_or_app; auto.
Qed.

Lemma phases_never_reject w t0 t1 t2 t3 :
  phases w0 w [t0; t1; t2; t3] ->
  never_rejects t1 = true /\ never_rejects t2 = true
  /\ never_rejects t3 = true.
Proof.
  intros (? & ? & ? & ? & E & _ & H1 & H2 & H3).
  injection E as <- <- <- <-.
  repeat split; eapply branch_phase_never_rejects; eauto;
    do 3 eexists; reflexivity.
Qed.

(** [setLoading] is outside every read's footprint. *)
Lemma phases_setLoading w ts a :
  phases w0 w ts -> phases w0 (perform (setLoading a) w) ts.
Proof. intros H; exact H. Qed.

Lemma launch_inv : reload_inv w0 (launch refreshData w0).
Proof.
  constructor; cbn.
  - repeat split.
  - reflexivity.
  - exists (fst (start fetchHREntries w0)), (fst (start fetchQuestions w0)),
      (fst (start fetchAnswers w0)), (fst (start fetchJobs w0)).
    split; [reflexivity|].
    split; [constructor; reflexivity|].
    repeat split; constructor; reflexivity.
  - reflexivity.
  - reflexivity.
  - reflexivity.
Qed.

(** Reassembling the invariant after branch [i] has moved from waiting to
    [t'], which changed the world to [w']. *)
Lemma inv_after_step w ts o rs i X (r : Request X) k t' w' :
  reload_inv w0 (mkPool w ts o rs) ->
  nth_error ts i = Some (Pending r k) ->
  same_data w0 (service w') ->
  unhandled w' = unhandled w ->
  Store.loading (store w') = Store.loading (store w) ->
  never_rejects t' = true \/ first_rejection ts = None ->
  phases w0 w' (set_nth i t' ts) ->
  reload_inv w0 (settle (mkPool w' (set_nth i t' ts) o rs)).
Proof.
  intros [Hdata Hrest Hphases Houter Hloading Hunh] Hnth Hdata' Hunh' Hload'
    Hside Hphases'; cbn in *.
  pose proof (gathered_after_step ts i X r k t' Hnth Hside) as Hg.
  rewrite <- Houter in Hg.
  pose proof (settle_outer (mkPool w' (set_nth i t' ts) o rs)) as Ho;
    cbn in Ho.
  destruct (settle_world (mkPool w' (set_nth i t' ts) o rs))
    as [[Hw Hnot] | (Hw & Hwait & Hres)]; cbn in *.
  - constructor; rewrite ?settle_tasks, ?settle_rest, ?Hw; cbn.
    + exact Hdata'.
    + exact Hrest.
    + exact Hphases'.
    + congruence.
    + rewrite Hload', Hloading, Ho.
      destruct o; cbn in *; try reflexivity.
      rewrite Ho in Hnot.
      destruct (gathered (set_nth i t' ts)); try reflexivity.
      exfalso; apply Hnot; reflexivity.
    + congruence.
  - constructor; rewrite ?settle_tasks, ?settle_rest, ?Hw; cbn.
    + rewrite Hrest; exact Hdata'.
    + exact Hrest.
    + rewrite Hrest; exact (phases_setLoading w' _ (Value false) Hphases').
    + congruence.
    + rewrite Hres, Hrest; reflexivity.
    + rewrite Hrest; cbn; congruence.
Qed.

Lemma resume_at_inv i p : reload_inv w0 p -> reload_inv w0 (resume_at i p).
Proof.
  intros Hinv; destruct p as [w ts o rs].
  pose proof Hinv as [Hdata _ Hph _ _ _]; cbn in Hdata, Hph.
  destruct Hph as (t0 & t1 & t2 & t3 & -> & H0 & H1 & H2 & H3).
  assert (Hph : phases w0 w [t0; t1; t2; t3])
    by (do 4 eexists; repeat split; eauto).
  destruct (phases_never_reject w t0 t1 t2 t3 Hph) as (N1 & N2 & N3).
  destruct Hdata as (Dhr & Dq & Da & Dj & Df).
  unfold resume_at; cbn [tasks world outer rest].
  destruct i as [|[|[|[|i]]]]; cbn [nth_error].
  - destruct H0 as [Hc | Hok Hc | Hnone Hc | e He Hc]; try exact Hinv.
    + cbn [start fetchHREntries fst resume].
      unfold Service.serve; rewrite Df.
      destruct (Service.faults (service w0) _ SelectHREntries) as [e|] eqn:Hhr;
        cbn [Service.perform start].
      * eapply inv_after_step with (i := 0);
          [exact Hinv | reflexivity | repeat split; assumption
          | reflexivity | reflexivity | right | ].
        -- rewrite !first_rejection_skip by (assumption || reflexivity).
           reflexivity.
        -- exists (Rejected e), t1, t2, t3; repeat split; try assumption.
           apply hr_failed; [|exact Hc].
           unfold hr_path_error; rewrite Hhr; reflexivity.
      * eapply inv_after_step with (i := 0);
          [exact Hinv | reflexivity | repeat split; assumption
          | reflexivity | reflexivity | left; reflexivity | ].
        eexists; exists t1, t2, t3.
        split; [reflexivity|]. repeat split; try assumption.
        match goal with |- hr_phase _ _ ?t =>
          assert (Ht : t = fst (resume (fst (start fetchHREntries w0)) w0))
        end.
        { cbn [start fetchHREntries fst resume].
          unfold Service.serve; rewrite Hhr.
          cbn [Service.perform Service.log Service.hr_entries start fst].
          rewrite Dhr; reflexivity. }
        rewrite Ht; apply hr_joining; assumption.
    + remember (fst (resume (fst (start fetchHREntries w0)) w0)) as t0 eqn:E
        in *.
      cbn [start fetchHREntries fst resume] in E.
      unfold Service.serve in E; rewrite Hok in E.
      cbn [Service.perform Service.log Service.hr_entries start fst] in E.
      subst t0; cbn [resume].
      unfold Service.serve; rewrite Df.
      destruct (Service.faults (service w0) _ (SelectQuestions None))
        as [e|] eqn:Hq; cbn [Service.perform start].
      * eapply inv_after_step with (i := 0);
          [exact Hinv | reflexivity | repeat split; assumption
          | reflexivity | reflexivity | right | ].
        -- rewrite !first_rejection_skip by (assumption || reflexivity).
           reflexivity.
        -- exists (Rejected e), t1, t2, t3; repeat split; try assumption.
           apply hr_failed; [|exact Hc].
           unfold hr_path_error; rewrite Hok; exact Hq.
      * eapply inv_after_step with (i := 0);
          [exact Hinv | reflexivity | repeat split; assumption
          | reflexivity | reflexivity | left; reflexivity | ].
        exists Fulfilled, t1, t2, t3; repeat split; try assumption.
        apply hr_loaded.
        -- unfold hr_path_error; rewrite Hok; exact Hq.
        -- cbn; rewrite Dq; reflexivity.
  - destruct H1 as [Hc | Hok Hc | e He Hc Hin]; try exact Hinv.
    cbn [start fetchQuestions fst resume].
    unfold Service.serve; rewrite Df.
    destruct (Service.faults (service w0) _
                (SelectQuestions (Some CreatedAtDesc))) as [e|] eqn:Hq;
      cbn [Service.perform start].
    + eapply inv_after_step with (i := 1);
        [exact Hinv | reflexivity | repeat split; assumption
        | reflexivity | reflexivity | left; reflexivity | ].
      exists t0, Fulfilled, t2, t3; repeat split; try assumption.
      * eapply branch_degraded; [exact Hq | exact Hc |].
        cbn; apply in_or_app; right; left; reflexivity.
      * apply branch_phase_frame; exact H2.
      * apply branch_phase_frame; exact H3.
    + eapply inv_after_step with (i := 1);
        [exact Hinv | reflexivity | repeat split; assumption
        | reflexivity | reflexivity | left; reflexivity | ].
      exists t0, Fulfilled, t2, t3; repeat split; try assumption.
      apply branch_loaded; [exact Hq|].
      cbn; rewrite Dq; reflexivity.
  - destruct H2 as [Hc | Hok Hc | e He Hc Hin]; try exact Hinv.
    cbn [start fetchAnswers fst resume].
    unfold Service.serve; rewrite Df.
    destruct (Service.faults (service w0) _
                (SelectAnswers (Some CreatedAtDesc))) as [e|] eqn:Hq;
      cbn [Service.perform start].
    + eapply inv_after_step with (i := 2);
        [exact Hinv | reflexivity | repeat split; assumption
        | reflexivity | reflexivity | left; reflexivity | ].
      exists t0, t1, Fulfilled, t3; repeat split; try assumption.
      * apply branch_phase_frame; exact H1.
      * eapply branch_degraded; [exact Hq | exact Hc |].
        cbn; apply in_or_app; right; left; reflexivity.
      * apply branch_phase_frame; exact H3.
    + eapply inv_after_step with (i := 2);
        [exact Hinv | reflexivity | repeat split; assumption
        | reflexivity | reflexivity | left; reflexivity | ].
      exists t0, t1, Fulfilled, t3; repeat split; try assumption.
      apply branch_loaded; [exact Hq|].
      cbn; rewrite Da; reflexivity.
  - destruct H3 as [Hc | Hok Hc | e He Hc Hin]; try exact Hinv.
    cbn [start fetchJobs fst resume].
    unfold Service.serve; rewrite Df.
    destruct (Service.faults (service w0) _
                (SelectJobs (Some CreatedAtDesc))) as [e|] eqn:Hq;
      cbn [Service.perform start].
    + eapply inv_after_step with (i := 3);
        [exact Hinv | reflexivity | repeat split; assumption
        | reflexivity | reflexivity | left; reflexivity | ].
      exists t0, t1, t2, Fulfilled; repeat split; try assumption.
      * apply branch_phase_frame; exact H1.
      * apply branch_phase_frame; exact H2.
      * eapply branch_degraded; [exact Hq | exact Hc |].
        cbn; apply in_or_app; right; left; reflexivity.
    + eapply inv_after_step with (i := 3);
        [exact Hinv | reflexivity | repeat split; assumption
        | reflexivity | reflexivity | left; reflexivity | ].
      exists t0, t1, t2, Fulfilled; repeat split; try assumption.
      apply branch_loaded; [exact Hq|].
      cbn; rewrite Dj; reflexivity.
  - destruct i; exact Hinv.
Qed.

(** The invariant holds in every state a schedule can reach. *)
Lemma run_inv sched : forall p,
  reload_inv w0 p -> reload_inv w0 (run sched p).
Proof.
  induction sched as [|i sched IH]; intros p Hinv; [exact Hinv|].
  rewrite run_cons; apply IH, resume_at_inv, Hinv.
Qed.

Lemma reload_states sched :
  reload_inv w0 (run sched (launch refreshData w0)).
Proof. apply run_inv, launch_inv. Qed.
End ReloadStates.

(** ** Every reload comes to rest *)

Lemma nth_error_set_nth_same {A : Type} (x : A) l : forall i,
  i < List.length l -> nth_error (set_nth i x l) i = Some x.
Proof.
  induction l as [|y l IH]; intros [|i] Hlt; cbn in *; try lia; auto.
  apply IH; lia.
Qed.

Lemma nth_error_set_nth_other {A : Type} (x : A) l : forall i j,
  i <> j -> nth_error (set_nth i x l) j = nth_error l j.
Proof.
  induction l as [|y l IH]; intros [|i] [|j] Hne; cbn; try congruence; auto.
Qed.

Lemma resume_at_tasks i p :
  tasks (resume_at i p)
  = match nth_error (tasks p) i with
    | Some (Pending r k) =>
        set_nth i (fst (resume (Pending r k) (world p))) (tasks p)
    | _ => tasks p
    end.
Proof.
  unfold resume_at.
  destruct (nth_error (tasks p) i) as [[X r k| |e]|]; try reflexivity.
  destruct (resume (Pending r k) (world p)) as [t w].
  rewrite settle_tasks; reflexivity.
Qed.

Lemma waits_other i j p : i <> j -> waits (resume_at i p) j = waits p j.
Proof.
  intros Hne; unfold waits; rewrite resume_at_tasks.
  destruct (nth_error (tasks p) i) as [[X r k| |e]|]; try reflexivity.
  rewrite nth_error_set_nth_other by assumption; reflexivity.
Qed.

Lemma waits_own i p :
  waits (resume_at i p) i
  = match nth_error (tasks p) i with
    | Some (Pending r k) => is_pending (fst (resume (Pending r k) (world p)))
    | _ => false
    end.
Proof.
  unfold waits; rewrite resume_at_tasks.
  destruct (nth_error (tasks p) i) as [[X r k| |e]|] eqn:Hnth;
    rewrite ?Hnth; try reflexivity.
  rewrite nth_error_set_nth_same; [reflexivity|].
  apply nth_error_Some; congruence.
Qed.

Lemma waits_settled i p : waits p i = false -> waits (resume_at i p) i = false.
Proof.
  unfold waits at 1; rewrite waits_own.
  destruct (nth_error (tasks p) i) as [[X r k| |e]|]; cbn; congruence.
Qed.

(** Each guarded read settles with the one response it awaits. *)
Lemma guarded_read_settles w0 w :
  is_pending (fst (resume (fst (start fetchQuestions w0)) w)) = false
  /\ is_pending (fst (resume (fst (start fetchAnswers w0)) w)) = false
  /\ is_pending (fst (resume (fst (start fetchJobs w0)) w)) = false.
Proof.
  repeat split; cbn [start fst resume fetchQuestions fetchAnswers fetchJobs];
    match goal with |- context [Service.serve ?r ?s] =>
      destruct (Service.serve r s) as [[data|e] svc] end; reflexivity.
Qed.

(** The HR-entries read settles with at most two. *)
Lemma hr_read_settles w0 w w' :
  let t := fst (resume (fst (start fetchHREntries w0)) w) in
  is_pending (fst (resume t w')) = false.
Proof.
  cbn [start fst resume fetchHREntries].
  destruct (Service.serve SelectHREntries (service w)) as [[data|e] svc];
    cbn [start fst resume]; [|reflexivity].
  destruct (Service.serve (SelectQuestions None) (service w'))
    as [[data'|e] svc']; reflexivity.
Qed.

Section ReloadCompletes.
Variable w0 : World.

Lemma hr_branch_settles p :
  reload_inv w0 p -> waits (resume_at 0 (resume_at 0 p)) 0 = false.
Proof.
  intros [_ _ (t0 & t1 & t2 & t3 & Hts & H0 & _) _ _ _].
  destruct H0 as [Hc | Hok Hc | Hnone Hc | e He Hc].
  - rewrite waits_own, resume_at_tasks, Hts; cbn [nth_error start fst fetchHREntries].
    cbn [set_nth nth_error].
    pose proof (hr_read_settles w0 (world p) (world (resume_at 0 p))) as H.
    cbn zeta in H.
    destruct (fst (resume (fst (start fetchHREntries w0)) (world p)))
      as [X r k| |e] eqn:E; cbn [start fst fetchHREntries] in E;
      rewrite E; [exact H | reflexivity | reflexivity].
  - apply waits_settled.
    rewrite waits_own, Hts; cbn [nth_error].
    pose proof (hr_read_settles w0 w0 (world p)) as H; cbn zeta in H.
    destruct (fst (resume (fst (start fetchHREntries w0)) w0));
      [exact H | reflexivity | reflexivity].
  - do 2 apply waits_settled; unfold waits; rewrite Hts; reflexivity.
  - do 2 apply waits_settled; unfold waits; rewrite Hts; reflexivity.
Qed.

Lemma guarded_branch_settles p i :
  reload_inv w0 p -> 1 <= i -> waits (resume_at i p) i = false.
Proof.
  intros [_ _ (t0 & t1 & t2 & t3 & Hts & _ & H1 & H2 & H3) _ _ _] Hi.
  rewrite waits_own, Hts.
  destruct (guarded_read_settles w0 (world p)) as (Gq & Ga & Gj).
  destruct i as [|[|[|[|i]]]]; [lia| | | |]; cbn [nth_error].
  - destruct H1; try reflexivity.
    destruct (fst (start fetchQuestions w0)); [exact Gq | reflexivity..].
  - destruct H2; try reflexivity.
    destruct (fst (start fetchAnswers w0)); [exact Ga | reflexivity..].
  - destruct H3; try reflexivity.
    destruct (fst (start fetchJobs w0)); [exact Gj | reflexivity..].
  - destruct i; reflexivity.
Qed.

(** Whatever has happened so far, once the responses still awaited have
    arrived no branch is waiting. *)
Lemma reload_completes p :
  reload_inv w0 p -> quiescent (run [0; 0; 1; 2; 3] p) = true.
Proof.
  intros Hinv.
  pose proof (run_inv w0 [0; 0] p Hinv) as Hinv2.
  pose proof (run_inv w0 [0; 0; 1] p Hinv) as Hinv3.
  pose proof (run_inv w0 [0; 0; 1; 2] p Hinv) as Hinv4.
  pose proof (run_inv w0 [0; 0; 1; 2; 3] p Hinv) as Hinv5.
  pose proof (hr_branch_settles p Hinv) as W0.
  pose proof (guarded_branch_settles _ 1 Hinv2 (le_n 1)) as W1.
  pose proof (guarded_branch_settles _ 2 Hinv3 ltac:(lia)) as W2.
  pose proof (guarded_branch_settles _ 3 Hinv4 ltac:(lia)) as W3.
  cbn [run fold_left] in *.
  set (p2 := resume_at 0 (resume_at 0 p)) in *.
  set (p3 := resume_at 1 p2) in *.
  set (p4 := resume_at 2 p3) in *.
  set (p5 := resume_at 3 p4) in *.
  assert (V0 : waits p5 0 = false).
  { unfold p5, p4, p3; rewrite !waits_other by lia; exact W0. }
  assert (V1 : waits p5 1 = false).
  { unfold p5, p4; rewrite !waits_other by lia; exact W1. }
  assert (V2 : waits p5 2 = false).
  { unfold p5; rewrite !waits_other by lia; exact W2. }
  destruct Hinv5 as [_ _ (t0 & t1 & t2 & t3 & Hts & _) _ _ _].
  unfold quiescent, waits in *; rewrite Hts in *; cbn in *.
  rewrite V0, V1, V2, W3; reflexivity.
Qed.
End ReloadCompletes.

(** ** What a reload leaves behind *)

Lemma strict_eq_true a b : strict_eq a b = true <-> a = Some b.
Proof.
  destruct a as [s|]; cbn; [|split; discriminate].
  rewrite String.eqb_eq; split; congruence.
Qed.

Section ReloadResults.
Variable w0 : World.

Lemma hr_phase_settled current t :
  hr_phase w0 current t ->
  is_pending t = false ->
  (hr_path_error (service w0) = None
   /\ t = Fulfilled
   /\ current = hrEntriesWithQuestions (Service.hr_entries (service w0))
                  (Service.questions (service w0)))
  \/ (exists e, hr_path_error (service w0) = Some e
                /\ t = Rejected e
                /\ current = Store.hrEntries (store w0)).
Proof.
  intros [Hc | Hok Hc | Hnone Hc | e He Hc] Hsettled.
  - discriminate.
  - cbn [start fetchHREntries fst resume] in Hsettled.
    unfold Service.serve in Hsettled; rewrite Hok in Hsettled.
    discriminate.
  - left; auto.
  - right; eauto.
Qed.

Lemma branch_phase_settled {A : Type} prog (req : Request (list A))
    msg prior fetched current log t :
  is_pending (fst (start prog w0)) = true ->
  branch_phase w0 prog req msg prior fetched current log t ->
  is_pending t = false ->
  t = Fulfilled
  /\ ((Service.faults (service w0) _ req = None /\ current = fetched)
      \/ (exists e, Service.faults (service w0) _ req = Some e
                    /\ current = prior /\ In (msg, e) log)).
Proof.
  intros Hstart [Hc | Hok Hc | e He Hc Hin] Hsettled.
  - congruence.
  - split; [reflexivity | left; auto].
  - split; [reflexivity | right; eauto].
Qed.

(** [loading] is [false] exactly when all four reads have fulfilled. *)
Lemma loading_false_iff p :
  reload_inv w0 p ->
  Store.loading (store (world p)) = false
  <-> forallb is_fulfilled (tasks p) = true.
Proof.
  intros [_ _ _ Houter Hloading _]; rewrite Hloading, Houter.
  unfold gathered.
  destruct (forallb is_fulfilled (tasks p)) eqn:Hall.
  - assert (Hnone : first_rejection (tasks p) = None).
    { clear -Hall; induction (tasks p) as [|t ts IH]; [reflexivity|].
      cbn in Hall; apply andb_prop in Hall as [Ht Hts].
      destruct t; try discriminate; cbn; auto. }
    rewrite Hnone; split; reflexivity.
  - destruct (first_rejection (tasks p)); split; discriminate.
Qed.

(** When the HR-entries read has failed, the gathering function has
    rejected with its error as soon as that branch has settled. *)
Lemma hr_failure_rejects p e :
  reload_inv w0 p ->
  hr_path_error (service w0) = Some e ->
  waits p 0 = false ->
  nth_error (tasks p) 0 = Some (Rejected e)
  /\ outer p = RejectedWith e
  /\ Store.hrEntries (store (world p)) = Store.hrEntries (store w0).
Proof.
  intros [_ _ (t0 & t1 & t2 & t3 & Hts & H0 & _) Houter _ _] He Hsettled.
  unfold waits in Hsettled; rewrite Hts in *; cbn in Hsettled.
  destruct (hr_phase_settled _ _ H0 Hsettled)
    as [(Hnone & _) | (e' & He' & -> & Hc)]; [congruence|].
  assert (e' = e) by congruence; subst e'.
  repeat split; [exact Houter | exact Hc].
Qed.

(** When the HR-entries read has failed, the reload never resolves. *)
Lemma hr_failure_never_resolves p e :
  reload_inv w0 p ->
  hr_path_error (service w0) = Some e ->
  outer p <> Resolved /\ Store.loading (store (world p)) = true.
Proof.
  intros Hinv He.
  assert (Hnot : forallb is_fulfilled (tasks p) <> true).
  { destruct Hinv as [_ _ (t0 & t1 & t2 & t3 & Hts & H0 & _) _ _ _].
    rewrite Hts; cbn; intros Hall.
    apply andb_prop in Hall as [Ht0 _].
    destruct H0 as [Hc | Hok Hc | Hnone Hc | e' He' Hc];
      [discriminate Ht0 | | congruence | discriminate Ht0].
    cbn [start fetchHREntries fst resume] in Ht0.
    destruct (Service.serve SelectHREntries (service w0)) as [[d|e'] s];
      discriminate Ht0. }
  pose proof (loading_false_iff p Hinv) as Hiff.
  destruct Hinv as [_ _ _ Houter Hloading _].
  split.
  - intros Hres; rewrite Hres in Hloading; apply Hnot, Hiff, Hloading.
  - destruct (Store.loading (store (world p))); [reflexivity|].
    exfalso; apply Hnot, Hiff; reflexivity.
Qed.

(** The state in which a reload whose HR-entries read succeeded comes to
    rest. *)
Lemma quiescent_after_hr_success p :
  reload_inv w0 p ->
  hr_path_error (service w0) = None ->
  quiescent p = true ->
  outer p = Resolved
  /\ Store.loading (store (world p)) = false
  /\ Store.hrEntries (store (world p))
     = hrEntriesWithQuestions (Service.hr_entries (service w0))
         (Service.questions (service w0))
  /\ questions_phase w0 (world p) Fulfilled
  /\ answers_phase w0 (world p) Fulfilled
  /\ jobs_phase w0 (world p) Fulfilled.
Proof.
  intros Hinv Hnone Hq.
  pose proof (loading_false_iff p Hinv) as Hiff.
  destruct Hinv as
    [_ _ (t0 & t1 & t2 & t3 & Hts & H0 & H1 & H2 & H3) Houter Hloading _].
  unfold quiescent in Hq; rewrite Hts in *; cbn in Hq.
  repeat (apply andb_prop in Hq as [?Hs Hq]).
  apply negb_true_iff in Hs, Hs0, Hs1, Hs2.
  destruct (hr_phase_settled _ _ H0 Hs)
    as [(_ & -> & Hc) | (e & He & _)]; [|congruence].
  destruct (branch_phase_settled fetchQuestions _ _ _ _ _ _ _ eq_refl H1 Hs0) as [-> _].
  destruct (branch_phase_settled fetchAnswers _ _ _ _ _ _ _ eq_refl H2 Hs1) as [-> _].
  destruct (branch_phase_settled fetchJobs _ _ _ _ _ _ _ eq_refl H3 Hs2) as [-> _].
  assert (Hl : Store.loading (store (world p)) = false)
    by (apply Hiff; reflexivity).
  repeat split; try assumption.
Qed.
End ReloadResults.

Lemma branch_outcome w0 {A : Type} prog (req : Request (list A))
    msg prior fetched current log :
  is_pending (fst (start prog w0)) = true ->
  branch_phase w0 prog req msg prior fetched current log Fulfilled ->
  (forall e, Service.faults (service w0) _ req = Some e ->
             current = prior /\ In (msg, e) log)
  /\ (Service.faults (service w0) _ req = None -> current = fetched).
Proof.
  intros Hstart H.
  destruct (branch_phase_settled w0 prog req msg prior fetched current log
              Fulfilled Hstart H eq_refl)
    as [_ [[Hok Hc] | (e & He & Hc & Hin)]].
  - split; [intros e He; congruence | auto].
  - split; [|congruence].
    intros e' He'; assert (e' = e) by congruence; subst e'; auto.
Qed.

Lemma resolved_hrEntries w0 p :
  reload_inv w0 p ->
  outer p = Resolved ->
  Store.hrEntries (store (world p))
  = hrEntriesWithQuestions (Service.hr_entries (service w0))
      (Service.questions (service w0)).
Proof.
  intros Hinv Hres.
  pose proof (proj1 (loading_false_iff w0 p Hinv)) as Hall.
  destruct Hinv as [_ _ (t0 & t1 & t2 & t3 & Hts & H0 & _) _ Hloading _].
  rewrite Hres in Hloading; specialize (Hall Hloading).
  rewrite Hts in Hall; cbn in Hall; apply andb_prop in Hall as [Ht0 _].
  destruct t0; try discriminate.
  destruct (hr_phase_settled w0 _ _ H0 eq_refl)
    as [(_ & _ & Hc) | (e & _ & Habs & _)]; [exact Hc | discriminate].
Qed.

(** ** Full reload *)

(** C2: once a full reload has resolved, every entry of [hrEntries] carries
    as [questions] exactly the question rows of the service whose
    [hr_entry_id] is the entry's id, in the order fetched; an entry no
    question row points to carries the empty list. *)
Theorem reload_attaches_matching_questions (w : World) (sched : list nat) :
  let p := run sched (launch refreshData w) in
  outer p = Resolved ->
  map HREntry.row (Store.hrEntries (store (world p)))
  = Service.hr_entries (service w)
  /\ forall entry,
      In entry (Store.hrEntries (store (world p))) ->
      HREntry.questions entry
      = filter (fun q => strict_eq (Question.hr_entry_id q) (HREntry.id entry))
          (Service.questions (service w))
      /\ (forall q,
             In q (HREntry.questions entry)
             <-> In q (Service.questions (service w))
                 /\ Question.hr_entry_id q = Some (HREntry.id entry))
      /\ ((forall q, In q (Service.questions (service w)) ->
                     Question.hr_entry_id q <> Some (HREntry.id entry)) ->
          HREntry.questions entry = []).
Proof.
  intros p Hres.
  rewrite (resolved_hrEntries w p (reload_states w sched) Hres).
  unfold hrEntriesWithQuestions; split.
  - rewrite map_map; cbn; apply map_id.
  - intros entry Hin.
    apply in_map_iff in Hin as (row & <- & _); cbn.
    split; [reflexivity|]. split.
    + intros q; rewrite filter_In, strict_eq_true; reflexivity.
    + intros Hno.
      induction (Service.questions (service w)) as [|q qs IH];
        [reflexivity|]; cbn.
      destruct (strict_eq (Question.hr_entry_id q) (HRRow.id row)) eqn:Heq.
      * apply strict_eq_true in Heq.
        destruct (Hno q (or_introl eq_refl) Heq).
      * apply IH; intros q' Hq'; apply Hno; right; exact Hq'.
Qed.

Lemma reload_attaches_matching_questions_witness :
  let p := run [1; 0; 3; 0; 2] (launch refreshData (Sample.fresh Sample.service)) in
  let entry := HREntry.make Sample.hr1 [Sample.q1] in
  outer p = Resolved
  /\ In entry (Store.hrEntries (store (world p)))
  /\ HREntry.questions entry
     = filter (fun q => strict_eq (Question.hr_entry_id q) (HREntry.id entry))
         [Sample.q1; Sample.q2].
Proof.
  intros p entry.
  split; [reflexivity|]. split; [left; reflexivity|].
  exact (proj1 (proj2 (reload_attaches_matching_questions
                         (Sample.fresh Sample.service) [1; 0; 3; 0; 2] eq_refl)
                  entry (or_introl eq_refl))).
Defined.

(** What the join holds, said without the join: the rows of the entries
    are the rows given, in order, and the questions of an entry are the
    questions given whose [hr_entry_id] is the entry's id, in order. *)
Lemma joined_entries hrs qs :
  map HREntry.row (hrEntriesWithQuestions hrs qs) = hrs
  /\ forall entry,
      In entry (hrEntriesWithQuestions hrs qs) ->
      HREntry.questions entry
      = filter (fun q => strict_eq (Question.hr_entry_id q) (HREntry.id entry))
          qs
      /\ forall q,
          In q (HREntry.questions entry)
          <-> In q qs /\ Question.hr_entry_id q = Some (HREntry.id entry).
Proof.
  unfold hrEntriesWithQuestions; split.
  - rewrite map_map; cbn; apply map_id.
  - intros entry Hin.
    apply in_map_iff in Hin as (row & <- & _); cbn.
    split; [reflexivity|].
    intros q; rewrite filter_In, strict_eq_true; reflexivity.
Qed.

(** C3: when the HR-entries read succeeds, a reload comes to rest whatever
    the order of the responses, and at rest it has resolved, [loading] is
    [false] and [hrEntries] is populated from the two tables: its rows are
    the rows of [hr_entries], in order, and each entry carries exactly the
    stored questions whose [hr_entry_id] is its id; each of the questions,
    answers and jobs reads that got an error has logged it and left its
    collection as it was before the reload, the others hold the rows
    fetched. *)
Theorem reload_survives_guarded_read_errors (w : World) :
  hr_path_error (service w) = None ->
  (forall sched,
      quiescent (run (sched ++ [0; 0; 1; 2; 3]) (launch refreshData w)) = true)
  /\ forall sched,
      let p := run sched (launch refreshData w) in
      quiescent p = true ->
      outer p = Resolved
      /\ Store.loading (store (world p)) = false
      /\ Store.hrEntries (store (world p))
         = hrEntriesWithQuestions (Service.hr_entries (service w))
             (Service.questions (service w))
      /\ map HREntry.row (Store.hrEntries (store (world p)))
         = Service.hr_entries (service w)
      /\ (forall entry,
             In entry (Store.hrEntries (store (world p))) ->
             HREntry.questions entry
             = filter (fun q =>
                         strict_eq (Question.hr_entry_id q) (HREntry.id entry))
                 (Service.questions (service w))
             /\ forall q,
                 In q (HREntry.questions entry)
                 <-> In q (Service.questions (service w))
                     /\ Question.hr_entry_id q = Some (HREntry.id entry))
      /\ (forall e,
             Service.faults (service w) _ (SelectQuestions (Some CreatedAtDesc))
             = Some e ->
             Store.questions (store (world p)) = Store.questions (store w)
             /\ In ("Error fetching questions:", e) (console (world p)))
      /\ (forall e,
             Service.faults (service w) _ (SelectAnswers (Some CreatedAtDesc))
             = Some e ->
             Store.answers (store (world p)) = Store.answers (store w)
             /\ In ("Error fetching answers:", e) (console (world p)))
      /\ (forall e,
             Service.faults (service w) _ (SelectJobs (Some CreatedAtDesc))
             = Some e ->
             Store.jobs (store (world p)) = Store.jobs (store w)
             /\ In ("Error fetching jobs:", e) (console (world p)))
      /\ (Service.faults (service w) _ (SelectQuestions (Some CreatedAtDesc))
          = None ->
          Store.questions (store (world p))
          = sort_desc Question.created_at (Service.questions (service w)))
      /\ (Service.faults (service w) _ (SelectAnswers (Some CreatedAtDesc))
          = None ->
          Store.answers (store (world p))
          = sort_desc Answer.created_at (Service.answers (service w)))
      /\ (Service.faults (service w) _ (SelectJobs (Some CreatedAtDesc))
          = None ->
          Store.jobs (store (world p))
          = sort_desc Job.created_at (Service.jobs (service w))).
Proof.
  intros Hnone; split.
  - intros sched; rewrite run_app.
    apply reload_completes with (w0 := w), reload_states.
  - intros sched p Hq.
    destruct (quiescent_after_hr_success w p (reload_states w sched) Hnone Hq)
      as (Ho & Hl & Hhr & Pq & Pa & Pj).
    destruct (branch_outcome w fetchQuestions _ _ _ _ _ _ eq_refl Pq)
      as [Qfail Qok].
    destruct (branch_outcome w fetchAnswers _ _ _ _ _ _ eq_refl Pa)
      as [Afail Aok].
    destruct (branch_outcome w fetchJobs _ _ _ _ _ _ eq_refl Pj)
      as [Jfail Jok].
    destruct (joined_entries (Service.hr_entries (service w))
                (Service.questions (service w))) as [Hrows Hlinked].
    rewrite <- Hhr in Hrows, Hlinked.
    split; [exact Ho|]. split; [exact Hl|]. split; [exact Hhr|].
    split; [exact Hrows|]. split; [exact Hlinked|].
    split; [exact Qfail|]. split; [exact Afail|]. split; [exact Jfail|].
    split; [exact Qok|]. split; [exact Aok | exact Jok].
Qed.

Lemma reload_survives_guarded_read_errors_witness :
  let fail_reads : forall X : Type, Request X -> option PostgrestError :=
    fun X r =>
      match r with
      | SelectQuestions (Some _) | SelectJobs _ => Some Sample.boom
      | _ => None
      end in
  let w :=
    mkWorld (Store.make [] [Sample.q1] [] [] false)
      (Sample.with_faults Sample.service fail_reads) [] [] [] in
  let p := run [3; 0; 2; 1; 0] (launch refreshData w) in
  outer p = Resolved
  /\ Store.loading (store (world p)) = false
  /\ Store.hrEntries (store (world p)) = [HREntry.make Sample.hr1 [Sample.q1]]
  /\ map HREntry.row (Store.hrEntries (store (world p))) = [Sample.hr1]
  /\ (In Sample.q1 (HREntry.questions (HREntry.make Sample.hr1 [Sample.q1]))
      <-> In Sample.q1 [Sample.q1; Sample.q2]
          /\ Question.hr_entry_id Sample.q1 = Some "id-0")
  /\ Store.questions (store (world p)) = [Sample.q1]
  /\ Store.answers (store (world p)) = [Sample.a1]
  /\ Store.jobs (store (world p)) = []
  /\ In ("Error fetching questions:", Sample.boom) (console (world p)).
Proof.
  intros fail_reads w p.
  destruct (reload_survives_guarded_read_errors w eq_refl) as [_ H].
  destruct (H [3; 0; 2; 1; 0] eq_refl)
    as (Ho & Hl & Hhr & Hrows & Hlinked & Hq & _ & Hj & _ & Ha & _).
  destruct (Hq Sample.boom eq_refl) as [Hq1 Hq2].
  destruct (Hj Sample.boom eq_refl) as [Hj1 _].
  split; [exact Ho|]. split; [exact Hl|]. split; [exact Hhr|].
  split; [exact Hrows|].
  split; [exact (proj2 (Hlinked (HREntry.make Sample.hr1 [Sample.q1])
                          (or_introl eq_refl)) Sample.q1)|].
  split; [exact Hq1|]. split; [exact (Ha eq_refl)|].
  split; [exact Hj1 | exact Hq2].
Defined.

(** C6: when the service answers the HR-entries read path with an error
    (to the [hr_entries] select, or to the [questions] select after it),
    that branch rejects with the error, [refreshData] rejects with it as
    soon as the branch has settled, and the mount effect, which drops the
    promise, leaves it as an unhandled rejection; [hrEntries] is what it was
    before. *)
Theorem hr_read_error_escapes (w : World) (e : PostgrestError)
    (sched : list nat) :
  hr_path_error (service w) = Some e ->
  let p := run sched (launch refreshData w) in
  waits p 0 = false ->
  nth_error (tasks p) 0 = Some (Rejected e)
  /\ outer p = RejectedWith e
  /\ unhandled (mount_effect sched w) = unhandled w ++ [e]
  /\ Store.hrEntries (store (world p)) = Store.hrEntries (store w).
Proof.
  intros He p Hsettled.
  pose proof (reload_states w sched) as Hinv; fold p in Hinv.
  destruct (hr_failure_rejects w p e Hinv He Hsettled) as (Ht & Ho & Hhr).
  repeat split; try assumption.
  unfold mount_effect, report_unhandled; fold p; rewrite Ho; cbn.
  destruct Hinv as [_ _ _ _ _ Hunh]; rewrite Hunh; reflexivity.
Qed.

Lemma hr_read_error_escapes_witness :
  let fail_join : forall X : Type, Request X -> option PostgrestError :=
    fun X r =>
      match r with SelectQuestions None => Some Sample.boom | _ => None end in
  let w :=
    mkWorld (store Sample.loaded)
      (Sample.with_faults Sample.service fail_join) [] [] [] in
  let p := run [0; 1; 0] (launch refreshData w) in
  nth_error (tasks p) 0 = Some (Rejected Sample.boom)
  /\ outer p = RejectedWith Sample.boom
  /\ unhandled (mount_effect [0; 1; 0] w) = [Sample.boom].
Proof.
  intros fail_join w p.
  destruct (hr_read_error_escapes w Sample.boom [0; 1; 0] eq_refl eq_refl)
    as (Ht & Ho & Hu & _).
  split; [exact Ht|]. split; [exact Ho | exact Hu].
Defined.

(** C10: [loading] is [false] exactly when all four reads have fulfilled;
    so when the HR-entries read path fails, [loading] is [true] in every
    state of that reload, which never resolves. *)
Theorem failed_hr_read_keeps_loading (w : World) :
  (forall sched,
      let p := run sched (launch refreshData w) in
      Store.loading (store (world p)) = false
      <-> forallb is_fulfilled (tasks p) = true)
  /\ forall e,
      hr_path_error (service w) = Some e ->
      forall sched,
        let p := run sched (launch refreshData w) in
        Store.loading (store (world p)) = true
        /\ outer p <> Resolved
        /\ Store.loading (store (mount_effect sched w)) = true.
Proof.
  split.
  - intros sched p; apply loading_false_iff with (w0 := w), reload_states.
  - intros e He sched p.
    destruct (hr_failure_never_resolves w p e (reload_states w sched) He)
      as [Hnot Hl].
    repeat split; try assumption.
    unfold mount_effect, report_unhandled; fold p.
    destruct (outer p); exact Hl.
Qed.

Lemma failed_hr_read_keeps_loading_witness :
  let fail_hr : forall X : Type, Request X -> option PostgrestError :=
    fun X r => match r with SelectHREntries => Some Sample.boom | _ => None end in
  let w :=
    mkWorld (store Sample.loaded)
      (Sample.with_faults Sample.service fail_hr) [] [] [] in
  Store.loading (store w) = false
  /\ quiescent (run [2; 0; 1; 3] (launch refreshData w)) = true
  /\ Store.loading (store (world (run [2; 0; 1; 3] (launch refreshData w))))
     = true.
Proof.
  intros fail_hr w.
  split; [reflexivity|]. split; [reflexivity|].
  exact (proj1 (proj2 (failed_hr_read_keeps_loading w) Sample.boom eq_refl
                  [2; 0; 1; 3])).
Defined.

(** * Further properties *)

(** ** The state a reload comes to rest in *)

Lemma store_eq (s1 s2 : Store.t) :
  Store.hrEntries s1 = Store.hrEntries s2 ->
  Store.questions s1 = Store.questions s2 ->
  Store.answers s1 = Store.answers s2 ->
  Store.jobs s1 = Store.jobs s2 ->
  Store.loading s1 = Store.loading s2 ->
  s1 = s2.
Proof. destruct s1, s2; cbn; intros; subst; reflexivity. Qed.

Lemma guarded_at_rest w0 {A : Type} prog (req : Request (list A))
    msg prior fetched current log t :
  is_pending (fst (start prog w0)) = true ->
  branch_phase w0 prog req msg prior fetched current log t ->
  is_pending t = false ->
  t = Fulfilled
  /\ current = match Service.faults (service w0) _ req with
               | None => fetched
               | Some _ => prior
               end.
Proof.
  intros Hstart H Hs.
  destruct (branch_phase_settled w0 prog req msg prior fetched current log t
              Hstart H Hs) as [-> [[Hok Hc] | (e & He & Hc & _)]].
  - rewrite Hok; auto.
  - rewrite He; auto.
Qed.

Lemma reload_at_rest w0 p :
  reload_inv w0 p -> quiescent p = true -> store (world p) = reloaded w0.
Proof.
  intros Hinv Hq.
  pose proof (loading_false_iff w0 p Hinv) as Hiff.
  destruct Hinv as
    [_ _ (t0 & t1 & t2 & t3 & Hts & H0 & H1 & H2 & H3) _ _ _].
  unfold quiescent in Hq; rewrite Hts in *; cbn in Hq.
  repeat (apply andb_prop in Hq as [?Hs Hq]).
  apply negb_true_iff in Hs, Hs0, Hs1, Hs2.
  destruct (guarded_at_rest w0 fetchQuestions _ _ _ _ _ _ _ eq_refl H1 Hs0)
    as [-> Eq].
  destruct (guarded_at_rest w0 fetchAnswers _ _ _ _ _ _ _ eq_refl H2 Hs1)
    as [-> Ea].
  destruct (guarded_at_rest w0 fetchJobs _ _ _ _ _ _ _ eq_refl H3 Hs2)
    as [-> Ej].
  apply store_eq; unfold reloaded; cbn [Store.hrEntries Store.questions
    Store.answers Store.jobs Store.loading]; try assumption.
  - destruct (hr_phase_settled w0 _ _ H0 Hs)
      as [(Hnone & _ & Hc) | (e & He & _ & Hc)].
    + rewrite Hnone; exact Hc.
    + rewrite He; exact Hc.
  - destruct (hr_phase_settled w0 _ _ H0 Hs)
      as [(Hnone & -> & _) | (e & He & -> & _)].
    + rewrite Hnone; apply Hiff; reflexivity.
    + rewrite He.
      destruct (Store.loading (store (world p))); [reflexivity|].
      assert (Habs : forallb is_fulfilled [Rejected e; Fulfilled; Fulfilled;
                                           Fulfilled] = true)
        by (apply Hiff; reflexivity).
      discriminate Habs.
Qed.

(** X1: in whatever order the responses arrive, a reload whose four reads
    have all settled leaves the provider's state in the one state
    [reloaded]: each collection holds the rows fetched or, when its read
    failed, what it held before, and [loading] is [false] unless the
    HR-entries read failed. *)
Theorem reload_rests_in_one_state (w : World) (sched : list nat) :
  let p := run sched (launch refreshData w) in
  quiescent p = true ->
  store (world p) = reloaded w.
Proof. intros p Hq; apply reload_at_rest; [apply reload_states | exact Hq]. Qed.

Lemma reload_rests_in_one_state_witness :
  let fail_some : forall X : Type, Request X -> option PostgrestError :=
    fun X r =>
      match r with
      | SelectQuestions None | SelectAnswers _ => Some Sample.boom
      | _ => None
      end in
  let w :=
    mkWorld (store Sample.loaded)
      (Sample.with_faults Sample.service fail_some) [] [] [] in
  store (world (run [0; 1; 0; 3; 2] (launch refreshData w)))
  = store (world (run [2; 3; 1; 0; 0] (launch refreshData w)))
  /\ store (world (run [2; 3; 1; 0; 0] (launch refreshData w)))
     = Store.make [HREntry.make Sample.hr1 [Sample.q1]] [Sample.q2; Sample.q1]
         [Sample.a1] [Sample.j1] true.
Proof.
  intros fail_some w.
  pose proof (reload_rests_in_one_state w [0; 1; 0; 3; 2] eq_refl) as H1.
  pose proof (reload_rests_in_one_state w [2; 3; 1; 0; 0] eq_refl) as H2.
  split; [exact (eq_trans H1 (eq_sym H2)) | exact H2].
Defined.

(** ** A reload only reads *)

Lemma perform_service a w : service (perform a w) = service w.
Proof. destruct a; reflexivity. Qed.

Lemma perform_alerts a w :
  is_alert a = false -> alerts (perform a w) = alerts w.
Proof. destruct a; cbn; congruence. Qed.

Lemma perform_all_quiet acts : forall w,
  forallb (fun a => negb (is_alert a)) acts = true ->
  service (perform_all acts w) = service w
  /\ alerts (perform_all acts w) = alerts w.
Proof.
  induction acts as [|a acts IH]; intros w Hq; cbn in *; [auto|].
  apply andb_prop in Hq as [Ha Hq]; apply negb_true_iff in Ha.
  destruct (IH (perform a w) Hq) as [Hs Hal].
  unfold perform_all in *; rewrite Hs, Hal, perform_service, perform_alerts;
    auto.
Qed.

Lemma read_only_refl w : read_only_since w w.
Proof.
  repeat split; exists []; split; [symmetry; apply app_nil_r | reflexivity].
Qed.

Lemma read_only_trans w1 w2 w3 :
  read_only_since w1 w2 -> read_only_since w2 w3 -> read_only_since w1 w3.
Proof.
  intros (A1 & A2 & A3 & A4 & A5 & A6 & A7 & l1 & A8 & A9)
         (B1 & B2 & B3 & B4 & B5 & B6 & B7 & l2 & B8 & B9).
  unfold read_only_since; cbn zeta.
  repeat split; try congruence.
  exists (l1 ++ l2); split.
  - rewrite B8, A8, app_assoc; reflexivity.
  - rewrite forallb_app, A9, B9; reflexivity.
Qed.

Lemma read_only_same_service w w' :
  service w' = service w -> alerts w' = alerts w -> read_only_since w w'.
Proof.
  intros Hs Ha; unfold read_only_since; cbn zeta; rewrite Hs.
  repeat split; try assumption.
  exists []; split; [symmetry; apply app_nil_r | reflexivity].
Qed.

Lemma start_background p : forall w,
  background p ->
  background_promise (fst (start p w))
  /\ service (snd (start p w)) = service w
  /\ alerts (snd (start p w)) = alerts w.
Proof.
  intros w H; revert w.
  induction H as [|e|X r k Hsel Hk _|a k Ha Hk IH]; intros w; cbn; auto.
  destruct (IH (perform a w)) as (Hp & Hs & Hal).
  rewrite Hs, Hal, perform_service, perform_alerts; auto.
Qed.

Lemma serve_select {X : Type} (r : Request X) s :
  is_select r = true -> snd (Service.serve r s) = Service.log r s.
Proof.
  intros Hsel; unfold Service.serve.
  destruct (Service.faults s X r); [reflexivity|].
  destruct r; try discriminate; reflexivity.
Qed.

Lemma resume_background t w :
  background_promise t ->
  background_promise (fst (resume t w))
  /\ read_only_since w (snd (resume t w)).
Proof.
  destruct t as [X r k| |e]; cbn [resume];
    [|split; [exact I | apply read_only_refl]..].
  intros [Hsel Hk].
  pose proof (serve_select r (service w) Hsel) as Hlog.
  destruct (Service.serve r (service w)) as [resp svc]; cbn in Hlog; subst svc.
  destruct (start_background (k resp)
              (with_service w (Service.log r (service w))) (Hk resp))
    as (Hp & Hs & Hal).
  split; [exact Hp|].
  unfold read_only_since; cbn zeta; rewrite Hs, Hal; cbn.
  repeat split.
  exists [sent r]; split; [reflexivity | cbn; rewrite Hsel; reflexivity].
Qed.

Lemma start_all_background ps : forall w,
  Forall background ps ->
  Forall background_promise (fst (start_all ps w))
  /\ service (snd (start_all ps w)) = service w
  /\ alerts (snd (start_all ps w)) = alerts w.
Proof.
  induction ps as [|p ps IH]; intros w Hall; cbn; [auto|].
  inversion Hall as [|? ? Hp Hps]; subst.
  destruct (start_background p w Hp) as (Bp & Sp & Ap).
  destruct (start p w) as [t w1]; cbn in *.
  destruct (IH w1 Hps) as (Bps & Sps & Aps).
  destruct (start_all ps w1) as [ts w2]; cbn in *.
  repeat split; [constructor; assumption | congruence | congruence].
Qed.

Lemma set_nth_Forall {A : Type} (P : A -> Prop) x l : forall i,
  Forall P l -> P x -> Forall P (set_nth i x l).
Proof.
  induction l as [|y l IH]; intros [|i] Hl Hx; cbn; auto;
    inversion Hl; subst; constructor; auto.
Qed.

Section BackgroundGather.
Variable g : Gather.
Hypothesis pre_quiet : forallb (fun a => negb (is_alert a)) (pre g) = true.
Hypothesis post_quiet : forallb (fun a => negb (is_alert a)) (post g) = true.
Hypothesis branches_background : Forall background (branches g).
Variable w0 : World.

Lemma settle_background p :
  background_pool g w0 p -> background_pool g w0 (settle p).
Proof.
  intros (Ht & Hr & Hw); unfold background_pool.
  rewrite settle_tasks, settle_rest.
  split; [exact Ht|]. split; [exact Hr|].
  destruct (settle_world p) as [[-> _] | (-> & _)]; [exact Hw|].
  eapply read_only_trans; [exact Hw|].
  rewrite Hr; destruct (perform_all_quiet (post g) (world p) post_quiet).
  apply read_only_same_service; assumption.
Qed.

Lemma launch_background : background_pool g w0 (launch g w0).
Proof.
  unfold launch.
  destruct (perform_all_quiet (pre g) w0 pre_quiet) as [Hs Ha].
  destruct (start_all_background (branches g) (perform_all (pre g) w0)
              branches_background) as (Bt & St & At).
  destruct (start_all (branches g) (perform_all (pre g) w0)) as [ts w'].
  apply settle_background.
  split; [exact Bt|]. split; [reflexivity|].
  cbn in *; apply read_only_same_service; congruence.
Qed.

Lemma resume_at_background i p :
  background_pool g w0 p -> background_pool g w0 (resume_at i p).
Proof.
  intros Hinv; pose proof Hinv as (Ht & Hr & Hw); unfold resume_at.
  destruct (nth_error (tasks p) i) as [[X r k| |e]|] eqn:Hnth;
    try exact Hinv.
  assert (Hb : background_promise (Pending r k)).
  { eapply Forall_forall; [exact Ht|].
    eapply nth_error_In; exact Hnth. }
  destruct (resume_background (Pending r k) (world p) Hb) as [Hp Hro].
  destruct (resume (Pending r k) (world p)) as [t w]; cbn in Hp, Hro.
  apply settle_background.
  split; [apply set_nth_Forall; assumption|]. split; [exact Hr|].
  eapply read_only_trans; eassumption.
Qed.

Lemma run_background sched :
  read_only_since w0 (world (run sched (launch g w0))).
Proof.
  assert (H : forall p, background_pool g w0 p ->
                        background_pool g w0 (run sched p)).
  { induction sched as [|i sched IH]; intros p Hp; [exact Hp|].
    rewrite run_cons; apply IH, resume_at_background, Hp. }
  apply (H _ launch_background).
Qed.
End BackgroundGather.

Lemma fetchers_are_background :
  Forall background (branches refreshData).
Proof.
  repeat constructor; intros [data|e]; repeat constructor.
  intros [data'|e]; repeat constructor.
Qed.

(** X2: a full reload only reads.  In every state of every schedule the
    service holds the tables, id counter and clock it had when the reload
    started, every request it has received since is a select, and no alert
    has been shown. *)
Theorem reload_only_reads (w : World) (sched : list nat) :
  read_only_since w (world (run sched (launch refreshData w))).
Proof.
  apply run_background;
    [reflexivity | reflexivity | exact fetchers_are_background].
Qed.

(** ** More on the mutation operations *)

(** Add HR Entry changes nothing of the world but the service. *)
Lemma addHREntry_world entry w :
  snd (exec (addHREntry entry) w)
  = with_service w (service (snd (exec (addHREntry entry) w))).
Proof.
  unfold addHREntry.
  destruct (Service.faults (service w) _ (InsertHREntrySingle (hrData entry)))
    as [e|] eqn:Hhr.
  - rewrite (exec_await_fault _ _ _ _ Hhr); reflexivity.
  - rewrite (exec_await_ok _ _ _ Hhr); cbn [Service.perform].
    destruct (List.length (HRDraft.questions entry)); cbn [Nat.ltb Nat.leb exec];
      [reflexivity|].
    unfold Service.serve.
    match goal with |- context [Service.faults ?s ?X ?r] =>
      destruct (Service.faults s X r) end; reflexivity.
Qed.

(** The rows the batch insert of [entry]'s questions adds in world [w]. *)
Lemma addHREntry_fulfilled entry w w' :
  exec (addHREntry entry) w = (Fulfilled, w') ->
  Service.hr_entries (service w')
  = Service.hr_entries (service w) ++ [inserted_entry w entry]
  /\ Service.questions (service w')
     = Service.questions (service w)
       ++ Service.new_questions
            (Service.timestamp (S (Service.clock (service w))))
            (S (Service.next_id (service w)))
            (questionRows (HRDraft.questions entry) (inserted_entry w entry)).
Proof.
  unfold addHREntry.
  destruct (Service.faults (service w) _ (InsertHREntrySingle (hrData entry)))
    as [e|] eqn:Hhr.
  - rewrite (exec_await_fault _ _ _ _ Hhr); discriminate.
  - rewrite (exec_await_ok _ _ _ Hhr); cbn [Service.perform].
    destruct (HRDraft.questions entry) as [|q qs] eqn:Eqs;
      cbn [List.length Nat.ltb Nat.leb exec].
    + intros [= <-]; cbn; rewrite app_nil_r; split; reflexivity.
    + unfold Service.serve.
      match goal with |- context [Service.faults ?s ?X ?r] =>
        destruct (Service.faults s X r) end; [discriminate|].
      intros [= <-]; split; reflexivity.
Qed.

(** X3: when the insert of the entry row fails, Add HR Entry stops there:
    that insert is the only request the service receives, and no question
    row is stored. *)
Theorem addHREntry_stops_at_failed_entry_insert
    (entry : HRDraft.t) (w : World) (e : PostgrestError) :
  Service.faults (service w) _ (InsertHREntrySingle (hrData entry)) = Some e ->
  let w' := snd (exec (addHREntry entry) w) in
  Service.received (service w')
  = Service.received (service w) ++ [sent (InsertHREntrySingle (hrData entry))]
  /\ Service.hr_entries (service w') = Service.hr_entries (service w)
  /\ Service.questions (service w') = Service.questions (service w).
Proof.
  intros H w'; subst w'.
  unfold addHREntry; rewrite (exec_await_fault _ _ _ _ H).
  repeat split.
Qed.

Lemma addHREntry_stops_at_failed_entry_insert_witness :
  let fail_entry : forall X : Type, Request X -> option PostgrestError :=
    fun X r =>
      match r with InsertHREntrySingle _ => Some Sample.boom | _ => None end in
  let w := Sample.fresh (Sample.with_faults Sample.service fail_entry) in
  let w' := snd (exec (addHREntry Sample.draft) w) in
  Service.received (service w')
  = [sent (InsertHREntrySingle (hrData Sample.draft))]
  /\ Service.questions (service w') = [Sample.q1; Sample.q2].
Proof.
  intros fail_entry w w'.
  destruct (addHREntry_stops_at_failed_entry_insert Sample.draft w Sample.boom
              eq_refl) as (Hr & _ & Hq).
  split; [exact Hr | exact Hq].
Defined.

(** X4: Add Question, Add Answer and Add Job each touch one collection
    only: whatever the service answers, the other three collections and
    [loading] are what they were.  In particular Add Question leaves the
    questions attached to the entries of [hrEntries] as they are. *)
Theorem add_touches_one_collection (w : World) :
  (forall question,
      let s' := store (snd (exec (addQuestion question) w)) in
      Store.hrEntries s' = Store.hrEntries (store w)
      /\ Store.answers s' = Store.answers (store w)
      /\ Store.jobs s' = Store.jobs (store w)
      /\ Store.loading s' = Store.loading (store w))
  /\ (forall answer,
      let s' := store (snd (exec (addAnswer answer) w)) in
      Store.hrEntries s' = Store.hrEntries (store w)
      /\ Store.questions s' = Store.questions (store w)
      /\ Store.jobs s' = Store.jobs (store w)
      /\ Store.loading s' = Store.loading (store w))
  /\ (forall job,
      let s' := store (snd (exec (addJob job) w)) in
      Store.hrEntries s' = Store.hrEntries (store w)
      /\ Store.questions s' = Store.questions (store w)
      /\ Store.answers s' = Store.answers (store w)
      /\ Store.loading s' = Store.loading (store w)).
Proof.
  split; [|split]; intros x s'; subst s';
    unfold addQuestion, addAnswer, addJob; cbn [exec]; unfold Service.serve;
    match goal with |- context [Service.faults ?s ?X ?r] =>
      destruct (Service.faults s X r) end; repeat split.
Qed.

(** X5: who is told about a failed insert.  Add Question and Add Answer
    write one line to the console and show no alert; Add Job writes one line
    and shows one alert; Add HR Entry does neither, for either of its
    inserts. *)
Theorem failed_insert_notifications (w : World) (e : PostgrestError) :
  (forall question,
      Service.faults (service w) _ (InsertQuestionSingle question) = Some e ->
      let w' := snd (exec (addQuestion question) w) in
      console w' = console w ++ [("Error adding question:", e)]
      /\ alerts w' = alerts w)
  /\ (forall answer,
      Service.faults (service w) _ (InsertAnswerSingle answer) = Some e ->
      let w' := snd (exec (addAnswer answer) w) in
      console w' = console w ++ [("Error adding answer:", e)]
      /\ alerts w' = alerts w)
  /\ (forall job,
      Service.faults (service w) _ (InsertJobSingle (jobToInsert job))
      = Some e ->
      let w' := snd (exec (addJob job) w) in
      console w' = console w ++ [("Error adding job:", e)]
      /\ alerts w'
         = alerts w ++ ["Failed to add job opening. Please try again."])
  /\ (forall entry,
      let w' := snd (exec (addHREntry entry) w) in
      console w' = console w /\ alerts w' = alerts w).
Proof.
  split; [|split; [|split]].
  - intros x H w'; subst w'.
    unfold addQuestion; rewrite (exec_await_fault _ _ _ _ H); split; reflexivity.
  - intros x H w'; subst w'.
    unfold addAnswer; rewrite (exec_await_fault _ _ _ _ H); split; reflexivity.
  - intros x H w'; subst w'.
    unfold addJob; rewrite (exec_await_fault _ _ _ _ H); split; reflexivity.
  - intros entry w'; subst w'.
    rewrite addHREntry_world; split; reflexivity.
Qed.

Lemma failed_insert_notifications_witness :
  let fail_inserts : forall X : Type, Request X -> option PostgrestError :=
    fun X r =>
      match r with
      | InsertQuestionSingle _ | InsertAnswerSingle _ | InsertJobSingle _ =>
          Some Sample.boom
      | _ => None
      end in
  let w := Sample.fresh (Sample.with_faults Sample.service fail_inserts) in
  console (snd (exec (addQuestion (QuestionDraft.make "Why?" "" "Eve")) w))
  = [("Error adding question:", Sample.boom)]
  /\ console (snd (exec (addAnswer (AnswerDraft.make "id-2" "So" "Dan")) w))
     = [("Error adding answer:", Sample.boom)]
  /\ alerts (snd (exec (addJob (JobDraft.make "A" "Acme" Null "x" Null)) w))
     = ["Failed to add job opening. Please try again."].
Proof.
  intros fail_inserts w.
  destruct (failed_insert_notifications w Sample.boom) as (HQ & HA & HJ & _).
  split; [exact (proj1 (HQ _ eq_refl))|].
  split; [exact (proj1 (HA _ eq_refl)) | exact (proj2 (HJ _ eq_refl))].
Defined.

(** X6: the row Add Job puts first in [jobs] carries what was submitted: a
    phone number or file name given as a string, the empty string included,
    is kept as given, and only an omitted or [null] one is [null]. *)
Theorem addJob_row_carries_the_draft (job : JobDraft.t) (w : World) :
  Service.faults (service w) _ (InsertJobSingle (jobToInsert job)) = None ->
  exists data w',
    exec (addJob job) w = (Fulfilled, w')
    /\ Store.jobs (store w') = data :: Store.jobs (store w)
    /\ Job.da_name data = JobDraft.da_name job
    /\ Job.company_name data = JobDraft.company_name job
    /\ Job.job_link data = JobDraft.job_link job
    /\ Job.phone_number data = nullish_or_null (JobDraft.phone_number job)
    /\ Job.file_name data = nullish_or_null (JobDraft.file_name job)
    /\ (forall s, JobDraft.phone_number job = Str s ->
                  Job.phone_number data = Str s)
    /\ (forall s, JobDraft.file_name job = Str s -> Job.file_name data = Str s).
Proof.
  intros H; unfold addJob; rewrite (exec_await_ok _ _ _ H).
  cbn [Service.perform exec].
  eexists; eexists; split; [reflexivity|]. split; [reflexivity|]. cbn.
  repeat split.
  - destruct (JobDraft.phone_number job); reflexivity.
  - destruct (JobDraft.file_name job); reflexivity.
  - intros s ->; reflexivity.
  - intros s ->; reflexivity.
Qed.

Lemma addJob_row_carries_the_draft_witness :
  exists data w',
    exec (addJob (JobDraft.make "A" "Acme" (Str "") "https://x.example"
                    Undefined)) Sample.loaded
    = (Fulfilled, w')
    /\ Store.jobs (store w') = [data; Sample.j1]
    /\ Job.phone_number data = Str ""
    /\ Job.file_name data = Null.
Proof.
  destruct (addJob_row_carries_the_draft
              (JobDraft.make "A" "Acme" (Str "") "https://x.example" Undefined)
              Sample.loaded eq_refl)
    as (data & w' & E & Hjobs & _ & _ & _ & _ & Hfile & Hphone & _).
  exists data, w'.
  split; [exact E|]. split; [exact Hjobs|].
  split; [exact (Hphone "" eq_refl) | exact Hfile].
Defined.

(** ** Mutations followed by a reload *)

Lemma filter_none {A : Type} (f : A -> bool) l :
  (forall x, In x l -> f x = false) -> filter f l = [].
Proof.
  induction l as [|x l IH]; intros H; cbn; [reflexivity|].
  rewrite (H x (or_introl eq_refl)); apply IH; intros y Hy; apply H; right;
    exact Hy.
Qed.

Lemma filter_all {A : Type} (f : A -> bool) l :
  (forall x, In x l -> f x = true) -> filter f l = l.
Proof.
  induction l as [|x l IH]; intros H; cbn; [reflexivity|].
  rewrite (H x (or_introl eq_refl)); f_equal; apply IH; intros y Hy; apply H;
    right; exact Hy.
Qed.

(** X7: an entry submitted with Add HR Entry comes back from the next
    reload with exactly its questions.  Provided no stored question already
    pointed at the id the new row gets, every resolved reload lists an entry
    whose row is the inserted one and whose questions have, in order, the
    texts submitted. *)
Theorem submitted_entry_comes_back_with_its_questions
    (entry : HRDraft.t) (w w1 : World) (sched : list nat) :
  exec (addHREntry entry) w = (Fulfilled, w1) ->
  (forall q, In q (Service.questions (service w)) ->
             Question.hr_entry_id q
             <> Some (HRRow.id (inserted_entry w entry))) ->
  let p := run sched (launch refreshData w1) in
  outer p = Resolved ->
  exists e,
    In e (Store.hrEntries (store (world p)))
    /\ HREntry.row e = inserted_entry w entry
    /\ map Question.text (HREntry.questions e) = HRDraft.questions entry.
Proof.
  intros Hexec Hfresh p Hres.
  destruct (addHREntry_fulfilled entry w w1 Hexec) as [Hhr Hq].
  rewrite (resolved_hrEntries w1 p (reload_states w1 sched) Hres), Hhr, Hq.
  set (row := inserted_entry w entry) in *.
  set (rows := Service.new_questions _ _ _).
  destruct (new_questions_rows
              (Service.timestamp (S (Service.clock (service w)))) row
              (HRDraft.questions entry) (S (Service.next_id (service w))))
    as [Htext Hall]; fold rows in Htext, Hall.
  eexists; split.
  - unfold hrEntriesWithQuestions; apply in_map, in_or_app; right; left;
      reflexivity.
  - split; [reflexivity|]; cbn [HREntry.questions HREntry.row].
    rewrite filter_app.
    rewrite (filter_none _ (Service.questions (service w))).
    + rewrite filter_all; [exact Htext|].
      intros q Hin; apply strict_eq_true.
      rewrite Forall_forall in Hall; apply (Hall q Hin).
    + intros q Hin.
      destruct (strict_eq (Question.hr_entry_id q) (HRRow.id row)) eqn:E;
        [|reflexivity].
      apply strict_eq_true in E; destruct (Hfresh q Hin E).
Qed.

Lemma submitted_entry_comes_back_with_its_questions_witness :
  let w1 := snd (exec (addHREntry Sample.draft) Sample.loaded) in
  let p := run [1; 0; 2; 0; 3] (launch refreshData w1) in
  exists e,
    In e (Store.hrEntries (store (world p)))
    /\ HREntry.row e = inserted_entry Sample.loaded Sample.draft
    /\ map Question.text (HREntry.questions e) = ["Tell me about yourself"].
Proof.
  intros w1 p.
  apply (submitted_entry_comes_back_with_its_questions Sample.draft
           Sample.loaded w1 [1; 0; 2; 0; 3] eq_refl).
  - intros q [<- | [<- | []]]; discriminate.
  - reflexivity.
Defined.

(** X8: a question added with Add Question has no [hr_entry_id], so a
    reload never lists it under an HR entry. *)
Theorem added_question_joins_no_entry
    (question : QuestionDraft.t) (w w1 : World) (data : Question.t)
    (sched : list nat) :
  exec (addQuestion question) w = (Fulfilled, w1) ->
  nth_error (Store.questions (store w1)) 0 = Some data ->
  let p := run sched (launch refreshData w1) in
  outer p = Resolved ->
  In data (Service.questions (service w1))
  /\ forall e, In e (Store.hrEntries (store (world p))) ->
               ~ In data (HREntry.questions e).
Proof.
  intros Hexec Hfirst p Hres.
  assert (Hdata : Question.hr_entry_id data = None
                  /\ In data (Service.questions (service w1))).
  { revert Hexec Hfirst; unfold addQuestion; cbn [exec]; unfold Service.serve.
    destruct (Service.faults _ _ _); cbn; [discriminate|].
    intros [= <-]; cbn; intros [= <-]; split; [reflexivity|].
    apply in_or_app; right; left; reflexivity. }
  destruct Hdata as [Hnone Hin]; split; [exact Hin|].
  intros e He Hq.
  rewrite (resolved_hrEntries w1 p (reload_states w1 sched) Hres) in He.
  unfold hrEntriesWithQuestions in He.
  apply in_map_iff in He as (row & <- & _); cbn in Hq.
  apply filter_In in Hq as [_ Hq]; rewrite Hnone in Hq; discriminate.
Qed.

Lemma added_question_joins_no_entry_witness :
  let w1 :=
    snd (exec (addQuestion (QuestionDraft.make "Why?" "culture" "Eve"))
           Sample.loaded) in
  exists data,
    nth_error (Store.questions (store w1)) 0 = Some data
    /\ Question.text data = "Why?"
    /\ In data (Service.questions (service w1))
    /\ ~ In data (HREntry.questions (HREntry.make Sample.hr1 [Sample.q1])).
Proof.
  intros w1.
  eexists; split; [reflexivity|]. split; [reflexivity|].
  destruct (added_question_joins_no_entry
              (QuestionDraft.make "Why?" "culture" "Eve") Sample.loaded w1 _
              [0; 0; 1; 2; 3] eq_refl eq_refl eq_refl) as [Hin Hno].
  split; [exact Hin|].
  apply Hno; left; reflexivity.
Defined.

(** ** Prepending and the newest-first order *)

Section NewestFirst.
Context {A : Type}.
Variable key : A -> string.

Lemma sort_desc_snoc l x :
  sort_desc key (l ++ [x]) = insert_desc key x (sort_desc key l).
Proof. unfold sort_desc; rewrite fold_left_app; reflexivity. Qed.

Lemma insert_desc_In x y l :
  In y (insert_desc key x l) <-> y = x \/ In y l.
Proof.
  induction l as [|z l IH]; cbn.
  - split; intros [H|H]; auto.
  - destruct (String.ltb (key z) (key x)); cbn; [split; intros [H|H]; auto|].
    rewrite IH; split; intros H; tauto.
Qed.

Lemma sort_desc_In y l : In y (sort_desc key l) <-> In y l.
Proof.
  induction l as [|x l IH] using rev_ind; [reflexivity|].
  rewrite sort_desc_snoc, insert_desc_In, IH, in_app_iff; cbn.
  split.
  - intros [H|H]; [right; left; symmetry; exact H | left; exact H].
  - intros [H|[H|[]]]; [right; exact H | left; symmetry; exact H].
Qed.

(** A row newer than all the others goes first. *)
Lemma sort_desc_newest l x :
  (forall y, In y l -> String.ltb (key y) (key x) = true) ->
  sort_desc key (l ++ [x]) = x :: sort_desc key l.
Proof.
  intros Hnew; rewrite sort_desc_snoc.
  destruct (sort_desc key l) as [|z l'] eqn:E; [reflexivity|]; cbn.
  rewrite Hnew; [reflexivity|].
  apply sort_desc_In; rewrite E; left; reflexivity.
Qed.
End NewestFirst.

(** X9: prepending agrees with the newest-first select.  If a collection
    holds what its select would return and the row the service inserts is
    stamped later than every row stored, then after Add Question, Add Answer
    or Add Job the collection is again what the select would return. *)
Theorem add_keeps_collection_in_step (w : World) :
  let stamp := Service.timestamp (Service.clock (service w)) in
  (forall question w1,
      exec (addQuestion question) w = (Fulfilled, w1) ->
      Store.questions (store w)
      = sort_desc Question.created_at (Service.questions (service w)) ->
      (forall q, In q (Service.questions (service w)) ->
                 String.ltb (Question.created_at q) stamp = true) ->
      Store.questions (store w1)
      = sort_desc Question.created_at (Service.questions (service w1)))
  /\ (forall answer w1,
      exec (addAnswer answer) w = (Fulfilled, w1) ->
      Store.answers (store w)
      = sort_desc Answer.created_at (Service.answers (service w)) ->
      (forall a, In a (Service.answers (service w)) ->
                 String.ltb (Answer.created_at a) stamp = true) ->
      Store.answers (store w1)
      = sort_desc Answer.created_at (Service.answers (service w1)))
  /\ (forall job w1,
      exec (addJob job) w = (Fulfilled, w1) ->
      Store.jobs (store w)
      = sort_desc Job.created_at (Service.jobs (service w)) ->
      (forall j, In j (Service.jobs (service w)) ->
                 String.ltb (Job.created_at j) stamp = true) ->
      Store.jobs (store w1)
      = sort_desc Job.created_at (Service.jobs (service w1))).
Proof.
  intros stamp; split; [|split]; intros x w1;
    unfold addQuestion, addAnswer, addJob; cbn [exec]; unfold Service.serve;
    match goal with |- context [Service.faults ?s ?X ?r] =>
      destruct (Service.faults s X r) end;
    cbn [Service.perform exec]; try discriminate;
    intros [= <-] Hsync Hnew; cbn [store service perform with_store with_service
      Store.questions Store.answers Store.jobs next_state Service.questions
      Service.answers Service.jobs Service.stored Service.log];
    rewrite sort_desc_newest, Hsync; try reflexivity; exact Hnew.
Qed.

Lemma add_keeps_collection_in_step_witness :
  let w := Sample.loaded in
  Store.questions
    (store (snd (exec (addQuestion (QuestionDraft.make "Why?" "" "Eve")) w)))
  = sort_desc Question.created_at
      (Service.questions
         (service (snd (exec (addQuestion (QuestionDraft.make "Why?" "" "Eve"))
                          w)))).
Proof.
  intros w.
  refine (proj1 (add_keeps_collection_in_step w) _ _ eq_refl eq_refl _).
  intros q [<- | [<- | []]]; reflexivity.
Defined.

(** ** Searching the entries *)

Lemma append_nil_r s : (s ++ "")%string = s.
Proof. induction s as [|c s IH]; cbn; [|rewrite IH]; reflexivity. Qed.

Lemma append_assoc (a b c : string) :
  ((a ++ b) ++ c)%string = (a ++ (b ++ c))%string.
Proof. induction a as [|x a IH]; cbn; [|rewrite IH]; reflexivity. Qed.

Lemma prefix_occurs t s :
  String.prefix t s = true <-> exists b, s = (t ++ b)%string.
Proof.
  revert s; induction t as [|c t IH]; intros [|d s]; cbn.
  - split; eauto.
  - split; eauto.
  - split; [discriminate | intros [b Hb]; discriminate].
  - destruct (ascii_dec c d) as [->|Hne].
    + rewrite IH; split; intros [b Hb]; exists b; [rewrite Hb|]; congruence.
    + split; [discriminate | intros [b Hb]; congruence].
Qed.

(** [includes] finds exactly the occurrences. *)
Lemma includes_occurs s t :
  includes s t = true <-> exists a b, s = (a ++ t ++ b)%string.
Proof.
  induction s as [|c s IH]; cbn [includes]; rewrite orb_true_iff.
  - rewrite prefix_occurs; split.
    + intros [[b Hb]|H]; [exists "", b; exact Hb | discriminate].
    + intros (a & b & H); left.
      destruct a; [exists b; exact H | discriminate].
  - rewrite prefix_occurs, IH; split.
    + intros [[b Hb] | (a & b & H)];
        [exists "", b; exact Hb | exists (String c a), b; cbn; congruence].
    + intros ([|d a] & b & H); [left; exists b; exact H|].
      right; exists a, b; cbn in H; congruence.
Qed.

Lemma includes_empty s : includes s "" = true.
Proof. apply includes_occurs; exists "", s; reflexivity. Qed.

Lemma toLowerCase_append a b :
  toLowerCase (a ++ b) = (toLowerCase a ++ toLowerCase b)%string.
Proof. induction a as [|c a IH]; cbn; [|rewrite IH]; reflexivity. Qed.

Lemma includes_narrow s t t' :
  (exists a b, t' = (a ++ t ++ b)%string) ->
  includes s t' = true -> includes s t = true.
Proof.
  intros (a & b & ->); rewrite !includes_occurs; intros (a' & b' & ->).
  exists (a' ++ a)%string, (b ++ b')%string.
  rewrite !append_assoc; reflexivity.
Qed.

(** Letter case, character by character: [lower] sends two characters to
    the same one exactly when they are the same letter.  Checked on all
    pairs of characters. *)
Lemma lower_same_letter c d :
  Ascii.eqb (lower c) (lower d) = same_letter c d.
Proof.
  assert (Hall :
    forallb (fun x =>
               forallb (fun y =>
                          Bool.eqb (Ascii.eqb (lower x) (lower y))
                            (same_letter x y))
                 (map ascii_of_nat (seq 0 256)))
      (map ascii_of_nat (seq 0 256)) = true)
    by (vm_compute; reflexivity).
  assert (Hin : forall x, In x (map ascii_of_nat (seq 0 256))).
  { intros x; rewrite <- (ascii_nat_embedding x).
    apply in_map, in_seq; pose proof (nat_ascii_bounded x); lia. }
  rewrite forallb_forall in Hall; specialize (Hall c (Hin c)).
  rewrite forallb_forall in Hall; specialize (Hall d (Hin d)).
  apply Bool.eqb_prop in Hall; exact Hall.
Qed.

Lemma toLowerCase_same_text u t :
  toLowerCase u = toLowerCase t <-> same_text u t = true.
Proof.
  revert t; induction u as [|c u IH]; intros [|d t]; cbn;
    try (split; [discriminate | discriminate]); [split; reflexivity|].
  rewrite andb_true_iff, <- lower_same_letter, Ascii.eqb_eq, <- IH.
  split; [intros [= Hc Hu]; auto | intros [-> ->]; reflexivity].
Qed.

Lemma toLowerCase_split s : forall a' r,
  toLowerCase s = (a' ++ r)%string ->
  exists a s2,
    s = (a ++ s2)%string /\ toLowerCase a = a' /\ toLowerCase s2 = r.
Proof.
  induction s as [|c s IH]; intros [|x a'] r; cbn.
  - intros <-; exists "", ""; auto.
  - discriminate.
  - intros <-; exists "", (String c s); auto.
  - intros [= Hc Hs].
    destruct (IH a' r Hs) as (a & s2 & -> & Ha & Hr).
    exists (String c a), s2; cbn; rewrite Ha, Hc; auto.
Qed.

(** A term occurs in the lower-cased text exactly where a piece of the
    text is the term up to letter case. *)
Lemma includes_up_to_case s t :
  includes (toLowerCase s) (toLowerCase t) = true
  <-> exists a u b, s = (a ++ u ++ b)%string /\ same_text u t = true.
Proof.
  rewrite includes_occurs; split.
  - intros (a' & b' & H).
    destruct (toLowerCase_split s a' _ H) as (a & s2 & -> & _ & H2).
    destruct (toLowerCase_split s2 (toLowerCase t) b' H2)
      as (u & b & -> & Hu & _).
    exists a, u, b; split; [reflexivity|].
    apply toLowerCase_same_text; exact Hu.
  - intros (a & u & b & -> & Hu).
    apply toLowerCase_same_text in Hu.
    exists (toLowerCase a), (toLowerCase b).
    rewrite !toLowerCase_append, Hu; reflexivity.
Qed.

(** X10: what the search box finds, for ASCII text.  An entry is listed
    exactly when it is in [hrEntries] and some piece of its company name or
    of its HR name is the term up to the case of its letters, or the term
    occurs as typed in its contact. *)
Theorem search_finds_occurrences
    (hrEntries : list HREntry.t) (term : string) (entry : HREntry.t) :
  ascii_text term = true ->
  ascii_text (HRRow.company_name (HREntry.row entry)) = true ->
  ascii_text (HRRow.hr_name (HREntry.row entry)) = true ->
  ascii_text (HRRow.hr_contact (HREntry.row entry)) = true ->
  In entry (filteredEntries hrEntries term)
  <-> In entry hrEntries
      /\ ((exists a u b,
              HRRow.company_name (HREntry.row entry) = (a ++ u ++ b)%string
              /\ same_text u term = true)
          \/ (exists a u b,
                 HRRow.hr_name (HREntry.row entry) = (a ++ u ++ b)%string
                 /\ same_text u term = true)
          \/ (exists a b,
                 HRRow.hr_contact (HREntry.row entry)
                 = (a ++ term ++ b)%string)).
Proof.
  intros _ _ _ _; unfold filteredEntries.
  rewrite filter_In, !orb_true_iff, !includes_up_to_case, includes_occurs.
  tauto.
Qed.

Lemma search_finds_occurrences_witness :
  let entry := HREntry.make Sample.hr1 [Sample.q1] in
  In entry (filteredEntries [HREntry.make Sample.hr1 []; entry] "bOB")
  /\ In entry (filteredEntries [entry] "5-01").
Proof.
  intros entry; split.
  - apply search_finds_occurrences; try reflexivity.
    split; [right; left; reflexivity|].
    right; left; exists "", "Bob", ""; split; reflexivity.
  - apply search_finds_occurrences; try reflexivity.
    split; [left; reflexivity|].
    right; right; exists "55", "00"; reflexivity.
Defined.

Lemma filteredEntries_no_term hrEntries : filteredEntries hrEntries "" = hrEntries.
Proof.
  unfold filteredEntries; apply filter_all; intros entry _.
  cbn [toLowerCase]; rewrite includes_empty; reflexivity.
Qed.

Lemma no_card_shows_questions l :
  (forall entry, In entry l -> HREntry.questions entry = []) ->
  existsb shows_questions l = false.
Proof.
  intros H; induction l as [|entry l IH]; cbn; [reflexivity|].
  unfold shows_questions at 1; rewrite (H entry (or_introl eq_refl)); cbn.
  apply IH; intros e He; apply H; right; exact He.
Qed.

Lemma some_card_shows_questions l :
  (exists entry, In entry l /\ HREntry.questions entry <> []) ->
  existsb shows_questions l = true.
Proof.
  intros (entry & Hin & Hne); apply existsb_exists; exists entry.
  split; [exact Hin|]; unfold shows_questions.
  destruct (HREntry.questions entry); [congruence | reflexivity].
Qed.

(** X11: with nothing typed in the search box every entry is a card, in
    the order of [hrEntries].  When no entry has a question the page shows
    them all, or the "No HR entries found" line when there is none; when
    some entry has a question the render throws. *)
Theorem empty_search_lists_everything (v : View.t) (s : Store.t) :
  filteredEntries (Store.hrEntries s) "" = Store.hrEntries s
  /\ (View.searchTerm v = "" ->
      Store.loading s = false ->
      (forall entry, In entry (Store.hrEntries s) ->
                     HREntry.questions entry = []) ->
      exists modal,
        HRDatabase v s
        = Page modal
            (match Store.hrEntries s with
             | [] => NoEntriesFound
             | _ => Cards (Store.hrEntries s)
             end))
  /\ (View.searchTerm v = "" ->
      Store.loading s = false ->
      (exists entry, In entry (Store.hrEntries s)
                     /\ HREntry.questions entry <> []) ->
      HRDatabase v s = RenderThrows).
Proof.
  split; [apply filteredEntries_no_term|]; split.
  - intros Hterm Hload Hnone; unfold HRDatabase; rewrite Hterm, Hload.
    rewrite filteredEntries_no_term, (no_card_shows_questions _ Hnone).
    eexists; destruct (Store.hrEntries s); reflexivity.
  - intros Hterm Hload Hsome; unfold HRDatabase; rewrite Hterm, Hload.
    rewrite filteredEntries_no_term, (some_card_shows_questions _ Hsome).
    reflexivity.
Qed.

Lemma empty_search_lists_everything_witness :
  (exists modal,
      HRDatabase View.initial
        (Store.make [HREntry.make Sample.hr1 []] [] [] [] false)
      = Page modal (Cards [HREntry.make Sample.hr1 []]))
  /\ HRDatabase View.initial (store Sample.loaded) = RenderThrows.
Proof.
  split.
  - apply (proj1 (proj2 (empty_search_lists_everything View.initial
                           (Store.make [HREntry.make Sample.hr1 []] [] [] []
                              false))));
      [reflexivity | reflexivity |].
    intros entry [<- | []]; reflexivity.
  - apply (proj2 (proj2 (empty_search_lists_everything View.initial
                           (store Sample.loaded))));
      [reflexivity | reflexivity |].
    exists (HREntry.make Sample.hr1 [Sample.q1]).
    split; [left; reflexivity | discriminate].
Defined.

(** X12: typing more never lists more, for ASCII text.  When the term
    typed before occurs in the new term, every entry listed for the new
    term was listed for the old one. *)
Theorem longer_term_narrows_the_list
    (hrEntries : list HREntry.t) (term term' : string) :
  ascii_text term' = true ->
  (forall entry, In entry hrEntries ->
                 ascii_text (HRRow.company_name (HREntry.row entry)) = true
                 /\ ascii_text (HRRow.hr_name (HREntry.row entry)) = true
                 /\ ascii_text (HRRow.hr_contact (HREntry.row entry)) = true) ->
  (exists a b, term' = (a ++ term ++ b)%string) ->
  incl (filteredEntries hrEntries term') (filteredEntries hrEntries term).
Proof.
  intros _ _ (a & b & ->) entry; unfold filteredEntries.
  rewrite !filter_In, !orb_true_iff; intros [Hin H]; split; [exact Hin|].
  assert (Hlow : exists a' b',
             toLowerCase (a ++ term ++ b)
             = (a' ++ toLowerCase term ++ b')%string).
  { exists (toLowerCase a), (toLowerCase b).
    rewrite !toLowerCase_append; reflexivity. }
  destruct H as [[H|H]|H].
  - left; left; exact (includes_narrow _ _ _ Hlow H).
  - left; right; exact (includes_narrow _ _ _ Hlow H).
  - right; apply (includes_narrow _ term (a ++ term ++ b)); eauto.
Qed.

Lemma longer_term_narrows_the_list_witness :
  incl (filteredEntries [HREntry.make Sample.hr1 [Sample.q1]] "ACME")
       (filteredEntries [HREntry.make Sample.hr1 [Sample.q1]] "CM").
Proof.
  apply longer_term_narrows_the_list.
  - reflexivity.
  - intros entry [<- | []]; repeat split.
  - exists "A", "E"; reflexivity.
Defined.

(** ** What the page shows *)

(** X13: while [loading] is [true] the page is the loading placeholder and
    nothing else, so after a mount whose HR-entries read failed it stays
    the placeholder in every state of the reload, whatever is typed or
    open. *)
Theorem failed_mount_leaves_the_placeholder
    (w : World) (e : PostgrestError) (sched : list nat) (v : View.t) :
  hr_path_error (service w) = Some e ->
  HRDatabase v (store (mount_effect sched w)) = LoadingPlaceholder.
Proof.
  intros He.
  destruct (hr_failure_never_resolves w _ e (reload_states w sched) He)
    as [_ Hl].
  assert (Hs : store (mount_effect sched w)
               = store (world (run sched (launch refreshData w)))).
  { unfold mount_effect, report_unhandled.
    destruct (outer (run sched (launch refreshData w))); reflexivity. }
  unfold HRDatabase; rewrite Hs, Hl; reflexivity.
Qed.

Lemma failed_mount_leaves_the_placeholder_witness :
  let fail_hr : forall X : Type, Request X -> option PostgrestError :=
    fun X r => match r with SelectHREntries => Some Sample.boom | _ => None end in
  let w := Sample.fresh (Sample.with_faults Sample.service fail_hr) in
  HRDatabase (View.make "Acme" true View.blank)
    (store (mount_effect [0; 1; 2; 3] w))
  = LoadingPlaceholder.
Proof.
  intros fail_hr w.
  exact (failed_mount_leaves_the_placeholder w Sample.boom [0; 1; 2; 3]
           (View.make "Acme" true View.blank) eq_refl).
Defined.

Lemma join_without_links hrs qs :
  (forall row q, In row hrs -> In q qs ->
                 Question.hr_entry_id q <> Some (HRRow.id row)) ->
  hrEntriesWithQuestions hrs qs = map (fun row => HREntry.make row []) hrs.
Proof.
  intros Hno; unfold hrEntriesWithQuestions; apply map_ext_in; intros row Hrow.
  f_equal; apply filter_none; intros q Hq.
  destruct (strict_eq (Question.hr_entry_id q) (HRRow.id row)) eqn:E;
    [|reflexivity].
  apply strict_eq_true in E; destruct (Hno row q Hrow Hq E).
Qed.

Lemma join_with_a_link hrs qs :
  (exists row q, In row hrs /\ In q qs
                 /\ Question.hr_entry_id q = Some (HRRow.id row)) ->
  exists entry,
    In entry (hrEntriesWithQuestions hrs qs)
    /\ HREntry.questions entry <> [].
Proof.
  intros (row & q & Hrow & Hq & Hlink).
  eexists; split; [apply in_map; exact Hrow|]; cbn.
  intros Hnil.
  assert (Hin : In q (filter (fun q0 =>
                                strict_eq (Question.hr_entry_id q0)
                                  (HRRow.id row)) qs)).
  { apply filter_In; split; [exact Hq | apply strict_eq_true; exact Hlink]. }
  rewrite Hnil in Hin; destruct Hin.
Qed.

(** X14: the first page.  When the HR-entries read succeeds and the
    mount's reload has come to rest, the page has the form closed.  If no
    stored question points at a stored entry, it lists one card per row of
    [hr_entries], in table order, or shows the "No HR entries found" line
    when the table is empty.  If some stored question points at a stored
    entry, the render throws. *)
Theorem first_page_lists_the_table (w : World) (sched : list nat) :
  hr_path_error (service w) = None ->
  quiescent (run sched (launch refreshData w)) = true ->
  ((forall row q,
       In row (Service.hr_entries (service w)) ->
       In q (Service.questions (service w)) ->
       Question.hr_entry_id q <> Some (HRRow.id row)) ->
   HRDatabase View.initial (store (mount_effect sched w))
   = Page None
       (match Service.hr_entries (service w) with
        | [] => NoEntriesFound
        | _ =>
            Cards (map (fun row => HREntry.make row [])
                     (Service.hr_entries (service w)))
        end))
  /\ ((exists row q,
          In row (Service.hr_entries (service w))
          /\ In q (Service.questions (service w))
          /\ Question.hr_entry_id q = Some (HRRow.id row)) ->
      HRDatabase View.initial (store (mount_effect sched w)) = RenderThrows).
Proof.
  intros Hnone Hq.
  pose proof (reload_at_rest w _ (reload_states w sched) Hq) as Hstore.
  assert (Hs : store (mount_effect sched w) = reloaded w).
  { rewrite <- Hstore; unfold mount_effect, report_unhandled.
    destruct (outer (run sched (launch refreshData w))); reflexivity. }
  unfold HRDatabase; rewrite Hs; unfold reloaded; rewrite Hnone.
  cbn [Store.loading Store.hrEntries View.initial View.showForm
       View.searchTerm].
  rewrite filteredEntries_no_term; split.
  - intros Hno; rewrite (join_without_links _ _ Hno).
    rewrite no_card_shows_questions, length_map.
    + destruct (Service.hr_entries (service w)); reflexivity.
    + intros entry Hin; apply in_map_iff in Hin as (row & <- & _).
      reflexivity.
  - intros Hlink.
    rewrite (some_card_shows_questions _ (join_with_a_link _ _ Hlink)).
    reflexivity.
Qed.

Lemma first_page_lists_the_table_witness :
  let unlinked :=
    Service.make [Sample.hr1] [Sample.q2] [] [] 5 5 Sample.no_faults [] in
  HRDatabase View.initial
    (store (mount_effect [3; 2; 1; 0; 0] (Sample.fresh unlinked)))
  = Page None (Cards [HREntry.make Sample.hr1 []])
  /\ HRDatabase View.initial
       (store (mount_effect [0; 0; 1; 2; 3] (Sample.fresh Sample.empty_service)))
     = Page None NoEntriesFound
  /\ HRDatabase View.initial
       (store (mount_effect [3; 2; 1; 0; 0] (Sample.fresh Sample.service)))
     = RenderThrows.
Proof.
  intros unlinked; split; [|split].
  - apply (proj1 (first_page_lists_the_table (Sample.fresh unlinked)
                    [3; 2; 1; 0; 0] eq_refl eq_refl)).
    intros row q [<- | []] [<- | []]; discriminate.
  - apply (proj1 (first_page_lists_the_table (Sample.fresh Sample.empty_service)
                    [0; 0; 1; 2; 3] eq_refl eq_refl)).
    intros row q [].
  - apply (proj2 (first_page_lists_the_table (Sample.fresh Sample.service)
                    [3; 2; 1; 0; 0] eq_refl eq_refl)).
    exists Sample.hr1, Sample.q1.
    split; [left; reflexivity|]. split; [left; reflexivity | reflexivity].
Defined.

(** ** Submitting the form *)

Lemma truthy_true s : truthy s = true <-> s <> "".
Proof.
  unfold truthy; rewrite negb_true_iff; apply String.eqb_neq.
Qed.

Lemma form_complete (f : HRDraft.t) :
  truthy (HRDraft.da_name f) && truthy (HRDraft.company_name f)
  && truthy (HRDraft.hr_name f) && truthy (HRDraft.hr_contact f) = true
  <-> HRDraft.da_name f <> "" /\ HRDraft.company_name f <> ""
      /\ HRDraft.hr_name f <> "" /\ HRDraft.hr_contact f <> "".
Proof. rewrite !andb_true_iff, !truthy_true; tauto. Qed.

Lemma addHREntry_received entry w :
  exists more,
    Service.received (service (snd (exec (addHREntry entry) w)))
    = Service.received (service w)
      ++ sent (InsertHREntrySingle (hrData entry)) :: more.
Proof.
  unfold addHREntry.
  destruct (Service.faults (service w) _ (InsertHREntrySingle (hrData entry)))
    as [e|] eqn:Hhr.
  - rewrite (exec_await_fault _ _ _ _ Hhr); exists []; reflexivity.
  - rewrite (exec_await_ok _ _ _ Hhr); cbn [Service.perform].
    destruct (List.length (HRDraft.questions entry)); cbn [Nat.ltb Nat.leb exec];
      [exists []; reflexivity|].
    unfold Service.serve.
    match goal with |- context [Service.faults ?s ?X ?r] =>
      destruct (Service.faults s X r) end;
      eexists; cbn; rewrite <- app_assoc; reflexivity.
Qed.

(** X15: the submit handler checks the four text fields and nothing else.
    With one of them empty it does nothing at all: no request, no alert, the
    form as it was.  With all four filled it sends the insert of the entry
    row first, whatever the question fields hold. *)
Theorem submit_checks_the_four_fields (v : View.t) (w : World) :
  let f := View.formData v in
  (HRDraft.da_name f = "" \/ HRDraft.company_name f = ""
   \/ HRDraft.hr_name f = "" \/ HRDraft.hr_contact f = "" ->
   handleSubmit v w = (v, w))
  /\ (HRDraft.da_name f <> "" -> HRDraft.company_name f <> "" ->
      HRDraft.hr_name f <> "" -> HRDraft.hr_contact f <> "" ->
      exists more,
        Service.received (service (snd (handleSubmit v w)))
        = Service.received (service w)
          ++ sent (InsertHREntrySingle (hrData f)) :: more).
Proof.
  intros f; unfold handleSubmit; fold f; split.
  - intros Hempty.
    destruct (truthy (HRDraft.da_name f) && truthy (HRDraft.company_name f)
              && truthy (HRDraft.hr_name f) && truthy (HRDraft.hr_contact f))
      eqn:Hc; [|reflexivity].
    apply form_complete in Hc; tauto.
  - intros H1 H2 H3 H4.
    rewrite (proj2 (form_complete f) (conj H1 (conj H2 (conj H3 H4)))).
    destruct (addHREntry_received f w) as [more Hmore].
    destruct (exec (addHREntry f) w) as [[X r k| |e] w']; cbn in *;
      exists more; exact Hmore.
Qed.

Lemma submit_checks_the_four_fields_witness :
  handleSubmit (View.make "" true (HRDraft.make "A" "Acme" "" "555" ["Why?"]))
    Sample.loaded
  = (View.make "" true (HRDraft.make "A" "Acme" "" "555" ["Why?"]),
     Sample.loaded)
  /\ exists more,
      Service.received
        (service (snd (handleSubmit
                         (View.make "" true (HRDraft.make "A" "Acme" "Bob" "555" [""]))
                         Sample.loaded)))
      = sent (InsertHREntrySingle (HRData.make "A" "Acme" "Bob" "555")) :: more.
Proof.
  split.
  - apply (proj1 (submit_checks_the_four_fields _ Sample.loaded)).
    right; right; left; reflexivity.
  - apply (proj2 (submit_checks_the_four_fields
                    (View.make "" true (HRDraft.make "A" "Acme" "Bob" "555" [""]))
                    Sample.loaded)); discriminate.
Defined.

(** X16: a submit that succeeds closes the form, resets it to one empty
    question, keeps the search term and shows the success alert.  The new
    row is in the service with the question texts of the form, blank ones
    included, but the provider's state is what it was, so the page lists
    what it listed before. *)
Theorem successful_submit_resets_the_form (v : View.t) (w w1 : World) :
  let f := View.formData v in
  HRDraft.da_name f <> "" -> HRDraft.company_name f <> "" ->
  HRDraft.hr_name f <> "" -> HRDraft.hr_contact f <> "" ->
  exec (addHREntry f) w = (Fulfilled, w1) ->
  let v' := fst (handleSubmit v w) in
  let w' := snd (handleSubmit v w) in
  v' = View.make (View.searchTerm v) false View.blank
  /\ alerts w' = alerts w ++ ["HR entry added successfully!"]
  /\ console w' = console w
  /\ store w' = store w
  /\ Service.hr_entries (service w')
     = Service.hr_entries (service w) ++ [inserted_entry w f]
  /\ (exists rows,
         Service.questions (service w') = Service.questions (service w) ++ rows
         /\ map Question.text rows = HRDraft.questions f)
  /\ filteredEntries (Store.hrEntries (store w')) (View.searchTerm v')
     = filteredEntries (Store.hrEntries (store w)) (View.searchTerm v).
Proof.
  intros f H1 H2 H3 H4 Hexec v' w'; subst v' w'.
  unfold handleSubmit; fold f.
  rewrite (proj2 (form_complete f) (conj H1 (conj H2 (conj H3 H4)))), Hexec.
  cbn [fst snd].
  pose proof (addHREntry_world f w) as Hw; rewrite Hexec in Hw; cbn in Hw.
  destruct (addHREntry_fulfilled f w w1 Hexec) as [Hhr Hq].
  destruct (new_questions_rows
              (Service.timestamp (S (Service.clock (service w))))
              (inserted_entry w f) (HRDraft.questions f)
              (S (Service.next_id (service w)))) as [Htext _].
  assert (Hstore : store w1 = store w) by (rewrite Hw; reflexivity).
  split; [reflexivity|].
  split; [rewrite Hw; reflexivity|].
  split; [rewrite Hw; reflexivity|].
  split; [exact Hstore|].
  split; [exact Hhr|].
  split; [eexists; split; [exact Hq | exact Htext]|].
  cbn; rewrite Hstore; reflexivity.
Qed.

Lemma successful_submit_resets_the_form_witness :
  let v := View.make "acme" true (HRDraft.make "A" "Acme" "Bob" "555" [""]) in
  fst (handleSubmit v Sample.loaded) = View.make "acme" false View.blank
  /\ alerts (snd (handleSubmit v Sample.loaded))
     = ["HR entry added successfully!"]
  /\ exists rows,
      Service.questions (service (snd (handleSubmit v Sample.loaded)))
      = [Sample.q1; Sample.q2] ++ rows
      /\ map Question.text rows = [""].
Proof.
  intros v.
  destruct (successful_submit_resets_the_form v Sample.loaded
              (snd (exec (addHREntry (View.formData v)) Sample.loaded)))
    as (Hv & Ha & _ & _ & _ & Hrows & _);
    [discriminate | discriminate | discriminate | discriminate | reflexivity |].
  split; [exact Hv|]. split; [exact Ha | exact Hrows].
Defined.

(** X17: a submit that fails is caught.  The form stays open with what was
    typed, the error is written to the console and the failure alert is
    shown once, no rejection is left unhandled, and the provider's state is
    what it was. *)
Theorem failed_submit_keeps_the_form
    (v : View.t) (w w1 : World) (e : PostgrestError) :
  let f := View.formData v in
  HRDraft.da_name f <> "" -> HRDraft.company_name f <> "" ->
  HRDraft.hr_name f <> "" -> HRDraft.hr_contact f <> "" ->
  exec (addHREntry f) w = (Rejected e, w1) ->
  let w' := snd (handleSubmit v w) in
  fst (handleSubmit v w) = v
  /\ console w' = console w ++ [("Error adding HR entry:", e)]
  /\ alerts w' = alerts w ++ ["Failed to add HR entry. Please try again."]
  /\ unhandled w' = unhandled w
  /\ store w' = store w
  /\ service w' = service w1.
Proof.
  intros f H1 H2 H3 H4 Hexec w'; subst w'.
  unfold handleSubmit; fold f.
  rewrite (proj2 (form_complete f) (conj H1 (conj H2 (conj H3 H4)))), Hexec.
  cbn [fst snd].
  pose proof (addHREntry_world f w) as Hw; rewrite Hexec in Hw; cbn in Hw.
  rewrite Hw; repeat split.
Qed.

Lemma failed_submit_keeps_the_form_witness :
  let fail_batch : forall X : Type, Request X -> option PostgrestError :=
    fun X r => match r with InsertQuestions _ => Some Sample.boom | _ => None end in
  let w := Sample.fresh (Sample.with_faults Sample.service fail_batch) in
  let v := View.make "" true Sample.draft in
  fst (handleSubmit v w) = v
  /\ alerts (snd (handleSubmit v w))
     = ["Failed to add HR entry. Please try again."]
  /\ console (snd (handleSubmit v w))
     = [("Error adding HR entry:", Sample.boom)].
Proof.
  intros fail_batch w v.
  destruct (failed_submit_keeps_the_form v w
              (snd (exec (addHREntry Sample.draft) w)) Sample.boom)
    as (Hv & Hc & Ha & _);
    [discriminate | discriminate | discriminate | discriminate | reflexivity |].
  split; [exact Hv|]. split; [exact Ha | exact Hc].
Defined.

(** X18: submitting again after the questions insert failed stores the
    entry twice.  The failed submit leaves the entry row in the service and
    the form as typed; once the service accepts the inserts, the next
    submit adds a second row with the same four fields under the next id. *)
Theorem retry_after_partial_write_duplicates
    (v : View.t) (w : World) (e : PostgrestError)
    (recovered : forall X : Type, Request X -> option PostgrestError) :
  let f := View.formData v in
  HRDraft.da_name f <> "" -> HRDraft.company_name f <> "" ->
  HRDraft.hr_name f <> "" -> HRDraft.hr_contact f <> "" ->
  HRDraft.questions f <> [] ->
  Service.faults (service w) _ (InsertHREntrySingle (hrData f)) = None ->
  Service.faults (service w) _
    (InsertQuestions (questionRows (HRDraft.questions f) (inserted_entry w f)))
  = Some e ->
  (forall X r, recovered X r = None) ->
  let v1 := fst (handleSubmit v w) in
  let w1 := snd (handleSubmit v w) in
  let w2 := with_service w1 (with_faults (service w1) recovered) in
  let w3 := snd (handleSubmit v1 w2) in
  exists row1 row2,
    Service.hr_entries (service w3)
    = Service.hr_entries (service w) ++ [row1; row2]
    /\ HRRow.id row1 = Service.fresh_id (Service.next_id (service w))
    /\ HRRow.id row2 = Service.fresh_id (S (Service.next_id (service w)))
    /\ HRRow.da_name row1 = HRDraft.da_name f
    /\ HRRow.da_name row2 = HRDraft.da_name f
    /\ HRRow.company_name row1 = HRDraft.company_name f
    /\ HRRow.company_name row2 = HRDraft.company_name f
    /\ HRRow.hr_name row1 = HRDraft.hr_name f
    /\ HRRow.hr_name row2 = HRDraft.hr_name f
    /\ HRRow.hr_contact row1 = HRDraft.hr_contact f
    /\ HRRow.hr_contact row2 = HRDraft.hr_contact f.
Proof.
  intros f H1 H2 H3 H4 Hne Hhr Hq Hrec v1 w1 w2 w3.
  pose proof (proj2 (form_complete f) (conj H1 (conj H2 (conj H3 H4)))) as Hc.
  assert (E1 : handleSubmit v w
               = (v, perform
                       (window_alert "Failed to add HR entry. Please try again.")
                       (perform (console_error "Error adding HR entry:" e)
                          (snd (exec (addHREntry f) w))))
               /\ Service.hr_entries (service (snd (exec (addHREntry f) w)))
                  = Service.hr_entries (service w) ++ [inserted_entry w f]
               /\ Service.next_id (service (snd (exec (addHREntry f) w)))
                  = S (Service.next_id (service w))).
  { unfold handleSubmit; fold f; rewrite Hc.
    unfold addHREntry; rewrite (exec_await_ok _ _ _ Hhr); cbn [Service.perform].
    destruct (HRDraft.questions f) as [|q qs] eqn:Eqs; [congruence|].
    cbn [List.length Nat.ltb Nat.leb].
    rewrite exec_await_fault with (e := e) by exact Hq.
    cbn [exec]; repeat split. }
  destruct E1 as (E1 & T1 & N1).
  subst v1 w1 w2 w3; rewrite E1; cbn [fst snd].
  set (wf := snd (exec (addHREntry f) w)) in *.
  set (w1 := perform _ (perform _ wf)).
  set (w2 := with_service w1 (with_faults (service w1) recovered)).
  assert (Hs2 : Service.hr_entries (service w2) = Service.hr_entries (service wf)
                /\ Service.next_id (service w2) = Service.next_id (service wf)
                /\ Service.faults (service w2) = recovered).
  { subst w2 w1; repeat split. }
  destruct Hs2 as (T2 & N2 & F2).
  assert (E3 : Service.hr_entries (service (snd (handleSubmit v w2)))
               = Service.hr_entries (service w2) ++ [inserted_entry w2 f]).
  { unfold handleSubmit; fold f; rewrite Hc.
    unfold addHREntry.
    rewrite exec_await_ok by (rewrite F2; apply Hrec).
    cbn [Service.perform].
    destruct (HRDraft.questions f) as [|q qs] eqn:Eqs; [congruence|].
    cbn [List.length Nat.ltb Nat.leb].
    rewrite exec_await_ok by (cbn; try rewrite F2; apply Hrec).
    reflexivity. }
  exists (inserted_entry w f), (inserted_entry w2 f).
  rewrite E3, T2, T1, <- app_assoc.
  split; [reflexivity|]. split; [reflexivity|].
  split; [unfold inserted_entry, Service.new_hr; cbn [HRRow.id];
          rewrite N2, N1; reflexivity|].
  repeat split.
Qed.

Lemma retry_after_partial_write_duplicates_witness :
  let fail_batch : forall X : Type, Request X -> option PostgrestError :=
    fun X r => match r with InsertQuestions _ => Some Sample.boom | _ => None end in
  let w := Sample.fresh (Sample.with_faults Sample.empty_service fail_batch) in
  let v := View.make "" true Sample.draft in
  let w1 := snd (handleSubmit v w) in
  let w2 := with_service w1 (with_faults (service w1) Sample.no_faults) in
  exists row1 row2,
    Service.hr_entries (service (snd (handleSubmit (fst (handleSubmit v w)) w2)))
    = [row1; row2]
    /\ HRRow.company_name row1 = "Acme"
    /\ HRRow.company_name row2 = "Acme".
Proof.
  intros fail_batch w v w1 w2.
  destruct (retry_after_partial_write_duplicates v w Sample.boom
              Sample.no_faults)
    as (row1 & row2 & Hrows & _ & _ & _ & _ & Hc1 & Hc2 & _);
    try discriminate; try reflexivity.
  exists row1, row2.
  split; [exact Hrows|]. split; [exact Hc1 | exact Hc2].
Defined.

(** ** Editing the questions of the form *)

Lemma array_set_in_range a value : forall idx,
  idx < List.length a ->
  exists updated,
    array_set a idx value = Some updated
    /\ List.length updated = List.length a
    /\ nth_error updated idx = Some value
    /\ forall j, j <> idx -> nth_error updated j = nth_error a j.
Proof.
  induction a as [|x a IH]; intros [|idx] Hlt; cbn in Hlt; try lia.
  - exists (value :: a); repeat split.
    intros [|j] Hj; [congruence | reflexivity].
  - destruct (IH idx ltac:(lia)) as (updated & Hset & Hlen & Hnth & Hother).
    exists (x :: updated); cbn; rewrite Hset, Hlen.
    repeat split; [exact Hnth|].
    intros [|j] Hj; [reflexivity | apply Hother; congruence].
Qed.

Lemma array_set_nonempty a idx value updated :
  array_set a idx value = Some updated -> updated <> [].
Proof.
  destruct a as [|x a], idx as [|idx]; cbn; try discriminate.
  - intros [= <-]; discriminate.
  - intros [= <-]; discriminate.
  - destruct (array_set a idx value); cbn; [|discriminate].
    intros [= <-]; discriminate.
Qed.

(** X19: typing into question [idx] of the form changes that question and
    nothing else: the other questions, their number, the four text fields,
    the search term and the open form stay as they are. *)
Theorem question_edit_is_local (idx : nat) (value : string) (v : View.t) :
  idx < List.length (HRDraft.questions (View.formData v)) ->
  exists v',
    handleQuestionChange idx value v = Some v'
    /\ nth_error (HRDraft.questions (View.formData v')) idx = Some value
    /\ (forall j, j <> idx ->
                  nth_error (HRDraft.questions (View.formData v')) j
                  = nth_error (HRDraft.questions (View.formData v)) j)
    /\ List.length (HRDraft.questions (View.formData v'))
       = List.length (HRDraft.questions (View.formData v))
    /\ hrData (View.formData v') = hrData (View.formData v)
    /\ View.searchTerm v' = View.searchTerm v
    /\ View.showForm v' = View.showForm v.
Proof.
  intros Hlt.
  destruct (array_set_in_range (HRDraft.questions (View.formData v)) value idx
              Hlt) as (updated & Hset & Hlen & Hnth & Hother).
  unfold handleQuestionChange; rewrite Hset; cbn.
  eexists; split; [reflexivity|]; cbn.
  repeat split; assumption.
Qed.

Lemma question_edit_is_local_witness :
  let v := View.make "" true (HRDraft.make "A" "" "" "" ["one"; ""; "three"]) in
  exists v',
    handleQuestionChange 1 "two" v = Some v'
    /\ HRDraft.questions (View.formData v') = ["one"; "two"; "three"].
Proof.
  intros v.
  destruct (question_edit_is_local 1 "two" v) as (v' & Hv & _);
    [cbn; lia|].
  exists v'; split; [exact Hv|].
  cbn in Hv; injection Hv as <-; reflexivity.
Defined.

Lemma dispatch_keeps_questions ev v w v' w' :
  HRDraft.questions (View.formData v) <> [] ->
  dispatch ev (v, w) = Some (v', w') ->
  HRDraft.questions (View.formData v') <> [].
Proof.
  intros Hne; destruct ev; cbn [dispatch];
    try (intros [= <- <-]; cbn; exact Hne).
  - unfold handleQuestionChange.
    destruct (array_set (HRDraft.questions (View.formData v)) idx value)
      as [updated|] eqn:Hset; cbn; [|discriminate].
    intros [= <- <-]; cbn.
    exact (array_set_nonempty _ _ _ _ Hset).
  - intros [= <- <-]; cbn.
    destruct (HRDraft.questions (View.formData v)); discriminate.
  - unfold handleSubmit.
    destruct (_ && _); [|intros [= <- <-]; exact Hne].
    destruct (exec (addHREntry (View.formData v)) w) as [[X r k| |e] w1];
      intros [= <- <-]; cbn; try exact Hne; discriminate.
Qed.

Lemma session_keeps_questions evs : forall v w v' w',
  HRDraft.questions (View.formData v) <> [] ->
  session evs (v, w) = Some (v', w') ->
  HRDraft.questions (View.formData v') <> [].
Proof.
  induction evs as [|ev evs IH]; intros v w v' w' Hne; cbn [session].
  - intros [= <- <-]; exact Hne.
  - destruct (dispatch ev (v, w)) as [[v1 w1]|] eqn:Hd; [|discriminate].
    apply IH, (dispatch_keeps_questions ev v w v1 w1 Hne Hd).
Qed.

(** X20: the form never runs out of question fields.  Whatever the user
    does from the first render on, the form holds at least one question, so
    every submit the service accepts stores at least one question row, be
    its text empty. *)
Theorem form_always_has_a_question
    (evs : list Event) (w : World) (v' : View.t) (w' w'' : World) :
  session evs (View.initial, w) = Some (v', w') ->
  HRDraft.questions (View.formData v') <> []
  /\ (exec (addHREntry (View.formData v')) w' = (Fulfilled, w'') ->
      List.length (Service.questions (service w'))
      < List.length (Service.questions (service w''))).
Proof.
  intros Hs.
  assert (Hne : HRDraft.questions (View.formData v') <> []).
  { apply (session_keeps_questions evs View.initial w v' w'); [|exact Hs].
    discriminate. }
  split; [exact Hne|].
  intros Hexec.
  destruct (addHREntry_fulfilled _ _ _ Hexec) as [_ Hq].
  rewrite Hq, length_app, new_questions_length.
  unfold questionRows; rewrite length_map.
  destruct (HRDraft.questions (View.formData v')); [congruence | cbn; lia].
Qed.

Lemma form_always_has_a_question_witness :
  let evs :=
    [ClickAddEntry; ChangeDaName "A"; ChangeCompanyName "Acme"; ClickPlus;
     ChangeQuestion 1 "Why us?"; ChangeHrName "Bob"; ChangeHrContact "555";
     SubmitForm; ClickAddEntry] in
  exists v' w',
    session evs (View.initial, Sample.loaded) = Some (v', w')
    /\ List.length (Service.questions (service w')) = 4
    /\ HRDraft.questions (View.formData v') <> [].
Proof.
  intros evs.
  eexists; eexists; split; [reflexivity|].
  split; [reflexivity|].
  exact (proj1 (form_always_has_a_question evs Sample.loaded _ _ Sample.loaded
                  eq_refl)).
Defined.
